(** * Solana lottery backend: ledger verifier, round and entry stores,
      round controller

    A shallow embedding of [main.py] (FastAPI handlers over two MongoDB
    collections, [lotteryround] and [entry]) and of the parts of the Python
    and JSON semantics its verifier relies on, followed by the properties of
    the entry-verification and draw subsystem. *)

From Stdlib Require Import ZArith QArith String.
From stdpp Require Import base tactics option list strings sorting.

Local Open Scope string_scope.
Local Open Scope list_scope.

(** ** Results of Python code: a value or a raised exception *)

Inductive Result (E A : Type) : Type :=
| Ok (a : A)
| Raise (e : E).
Arguments Ok {E A} a.
Arguments Raise {E A} e.

Definition bind {E A B} (m : Result E A) (k : A → Result E B) : Result E B :=
  match m with
  | Ok a => k a
  | Raise e => Raise e
  end.
Arguments bind {E A B} & m k.

Notation "'do' x <- m ; k" := (bind m (λ x, k))
  (at level 10, x name, m at level 100, k at level 200,
   format "'[v' 'do'  x  <-  m ; '/' k ']'").

(** [try: ... except Exception: return d]. *)
Definition try_except {E A} (m : Result E A) (d : A) : A :=
  match m with
  | Ok a => a
  | Raise _ => d
  end.

(** ** JSON values as Python sees them after [resp.json()] *)

(** A decoded object is a [dict]; the association list stands for it with the
    first binding of a key being the dict's value at that key. Numbers are
    rationals, which covers Python's [int] and finite [float]. *)
#[warnings="-register-all"] Inductive json : Type :=
| JNull
| JBool (b : bool)
| JNum (q : Q)
| JStr (s : string)
| JList (l : list json)
| JDict (d : list (string * json)).

(** The exceptions the verifier's body can meet; all derive from
    [Exception]. *)
Inductive PyExc : Type :=
| KeyError
| TypeError
| AttributeError
| JSONDecodeError
| RequestsTimeout
| RequestsConnectionError.

Definition is_None (v : json) : bool :=
  match v with
  | JNull => true
  | _ => false
  end.

(** Truth value of an object in a condition. *)
Definition truthy (v : json) : bool :=
  match v with
  | JNull => false
  | JBool b => b
  | JNum q => negb (Qnum q =? 0)%Z
  | JStr s => negb (String.eqb s "")
  | JList l => match l with [] => false | _ => true end
  | JDict d => match d with [] => false | _ => true end
  end.

Fixpoint dict_lookup (k : string) (d : list (string * json)) : option json :=
  match d with
  | [] => None
  | (k', v) :: d' => if String.eqb k k' then Some v else dict_lookup k d'
  end.

(** [p in s] for two [str]: [p] occurs in [s] as a substring. *)
Fixpoint str_contains (p s : string) : bool :=
  String.prefix p s ||
  match s with
  | EmptyString => false
  | String _ s' => str_contains p s'
  end.

(** [x == v] for a [str] [x] and a decoded JSON value [v]. *)
Definition str_eq_json (x : string) (v : json) : bool :=
  match v with
  | JStr s => String.eqb x s
  | _ => false
  end.

(** [x in c] for a [str] [x]: key membership in a dict, element equality in
    a list, substring in a str, [TypeError] on anything else. *)
Definition py_in (x : string) (c : json) : Result PyExc bool :=
  match c with
  | JDict d => Ok (bool_decide (is_Some (dict_lookup x d)))
  | JList l => Ok (existsb (str_eq_json x) l)
  | JStr s => Ok (str_contains x s)
  | JNull | JBool _ | JNum _ => Raise TypeError
  end.

(** [c[k]] for a [str] key [k]. *)
Definition py_getitem (c : json) (k : string) : Result PyExc json :=
  match c with
  | JDict d => match dict_lookup k d with
               | Some v => Ok v
               | None => Raise KeyError
               end
  | _ => Raise TypeError
  end.

(** [c.get(k, default)]; only a dict has the method. *)
Definition py_get (c : json) (k : string) (dflt : json) : Result PyExc json :=
  match c with
  | JDict d => Ok (default dflt (dict_lookup k d))
  | _ => Raise AttributeError
  end.

(** ** Ledger verifier *)

Definition NETWORK_ENDPOINTS : list (string * string) :=
  [("devnet", "https://api.devnet.solana.com");
   ("testnet", "https://api.testnet.solana.com");
   ("mainnet-beta", "https://api.mainnet-beta.solana.com")].

Fixpoint endpoint_lookup (k : string) (d : list (string * string)) : option string :=
  match d with
  | [] => None
  | (k', v) :: d' => if String.eqb k k' then Some v else endpoint_lookup k d'
  end.

(** The HTTP reply to the JSON-RPC request: [body] is the decoded JSON, or
    [None] when the body is not JSON and [resp.json()] raises. *)
Record Response : Type := mkResponse { body : option json }.

Definition Response_json (resp : Response) : Result PyExc json :=
  match body resp with
  | Some data => Ok data
  | None => Raise JSONDecodeError
  end.

(** The ledger as the verifier reaches it:
    [requests.post(endpoint, json=payload, timeout=10)] with the
    [getTransaction] payload for a signature either raises (time-out,
    transport failure) or returns a reply. *)
Definition Ledger : Type := string → string → Result PyExc Response.

(** [NETWORK_ENDPOINTS[k]]. *)
Definition endpoint_getitem (k : string) : Result PyExc string :=
  match endpoint_lookup k NETWORK_ENDPOINTS with
  | Some url => Ok url
  | None => Raise KeyError
  end.

(** [NETWORK_ENDPOINTS.get(network, NETWORK_ENDPOINTS["devnet"])]; the
    default is evaluated before the call. *)
Definition resolve_endpoint (network : string) : Result PyExc string :=
  do dflt <- endpoint_getitem "devnet";
  Ok (default dflt (endpoint_lookup network NETWORK_ENDPOINTS)).

(** [expected and expected not in account_keys] for an [Optional[str]]. *)
Definition supplied_and_missing (expected : option string) (account_keys : json)
  : Result PyExc bool :=
  match expected with
  | None => Ok false
  | Some a =>
      if String.eqb a "" then Ok false
      else do present <- py_in a account_keys; Ok (negb present)
  end.

(** Lines 89-91 of [verify_signature_on_chain]: the account keys of a
    fetched [result]. *)
Definition fetched_account_keys (result : json) : Result PyExc json :=
  do tx <- py_get result "transaction" (JDict []);
  do message <- py_get tx "message" (JDict []);
  py_get message "accountKeys" (JList []).

(** Lines 88-96: the account presence checks on a fetched [result]. *)
Definition account_presence_checks (result : json)
    (expected_wallet expected_treasury : option string) : Result PyExc bool :=
  do account_keys <- fetched_account_keys result;
  do wallet_missing <- supplied_and_missing expected_wallet account_keys;
  if wallet_missing then Ok false
  else
    do treasury_missing <- supplied_and_missing expected_treasury account_keys;
    if treasury_missing then Ok false else Ok true.

(** [meta and meta.get("err") is not None]. *)
Definition reports_error (meta : json) : Result PyExc bool :=
  if truthy meta then do err <- py_get meta "err" JNull; Ok (negb (is_None err))
  else Ok false.

(** The body of the [try] block, lines 74-96. *)
Definition verify_try_block (post : Ledger) (endpoint tx_signature : string)
    (expected_wallet expected_treasury : option string) : Result PyExc bool :=
  do resp <- post endpoint tx_signature;
  do data <- Response_json resp;
  do has_result <- py_in "result" data;
  if negb has_result then Ok false
  else
    do result <- py_getitem data "result";
    if is_None result then Ok false
    else
      do meta <- py_get result "meta" JNull;
      do errored <- reports_error meta;
      if errored then Ok false
      else account_presence_checks result expected_wallet expected_treasury.

(** [verify_signature_on_chain], as a caller sees it: a value or a raised
    exception. Only the endpoint lookup is outside the [try]. *)
Definition verify_signature_on_chain (post : Ledger) (network tx_signature : string)
    (expected_wallet expected_treasury : option string) : Result PyExc bool :=
  do endpoint <- resolve_endpoint network;
  Ok (try_except
        (verify_try_block post endpoint tx_signature
           expected_wallet expected_treasury)
        false).

(** ** Documents *)

Definition ObjectId : Type := nat.
Definition datetime : Type := Z.

Module LotteryRound.
Record t : Type := mk {
  _id : ObjectId;
  round_id : string;
  is_active : bool;
  entry_fee_lamports : Z;
  treasury_address : string;
  network : string;
  winner_address : option string;
  drawn_at : option datetime;
  created_at : datetime;
  updated_at : datetime;
}.
End LotteryRound.

Module Entry.
Record t : Type := mk {
  _id : ObjectId;
  round_id : string;
  wallet_address : string;
  tx_signature : string;
  verified : bool;
  created_at : datetime;
  updated_at : datetime;
}.
End Entry.

Module CreateRoundRequest.
Record t : Type := mk {
  round_id : string;
  entry_fee_lamports : Z;
  treasury_address : string;
  network : string;
}.
End CreateRoundRequest.

Module EnterRequest.
Record t : Type := mk {
  wallet_address : string;
  tx_signature : string;
}.
End EnterRequest.

Module Winner.
Record t : Type := mk {
  wallet_address : string;
  tx_signature : string;
}.
End Winner.

Module DrawResponse.
Record t : Type := mk {
  round : LotteryRound.t;
  winner : Winner.t;
}.
End DrawResponse.

Record HTTPException : Type := mkHTTPException {
  status_code : Z;
  detail : string;
}.

(** ** The document store *)

(** The two collections in insertion order, and the next [ObjectId] the
    driver hands out. *)
Record Db : Type := mkDb {
  lotteryround : list LotteryRound.t;
  entry : list Entry.t;
  next_oid : ObjectId;
}.

Definition empty_db : Db := mkDb [] [] 0.

Section Collection.
Context {A : Type} (P : A → Prop) `{!∀ x, Decision (P x)}.

(** [find(filter)]: the matching documents in natural order. *)
Definition find (c : list A) : list A := filter P c.

(** [find_one(filter)]: the first matching document, or [None]. *)
Definition find_one (c : list A) : option A := snd <$> list_find P c.

(** [update_one(filter, {"$set": ...})]: the first matching document is
    rewritten in place by [set]; nothing happens when none matches. *)
Definition update_one (set : A → A) (c : list A) : list A :=
  match list_find P c with
  | Some (i, x) => <[i := set x]> c
  | None => c
  end.
End Collection.

Definition insert_one {A} (c : list A) (doc : A) : list A := c ++ [doc].

(** ** What a request reads from outside the store *)

(** The ledger, the values of the successive [now_utc()] calls, and the raw
    value behind [random.choice]. *)
Record Env : Type := mkEnv {
  post : Ledger;
  now_utc : nat → datetime;
  random_draw : nat;
}.

(** [random.choice(seq)] on a non-empty sequence [x :: xs]. *)
Definition random_choice {A} (k : nat) (x : A) (xs : list A) : A :=
  nth (k mod S (length xs)) (x :: xs) x.

(** ** The handlers' errors, under the names of the error taxonomy *)

(** NotFound. *)
Definition RoundNotFound : HTTPException := mkHTTPException 404 "Round not found".
Definition EntryNotFound : HTTPException := mkHTTPException 404 "Entry not found".
(** Conflict. *)
Definition RoundIdConflict : HTTPException :=
  mkHTTPException 400 "round_id already exists".
Definition SignatureConflict : HTTPException :=
  mkHTTPException 400 "This transaction was already submitted".
(** InvalidState, at submission and at the draw. *)
Definition RoundClosed : HTTPException := mkHTTPException 400 "Round is closed".
Definition RoundAlreadyClosed : HTTPException :=
  mkHTTPException 400 "Round already closed".
(** NoEligibleEntries. *)
Definition NoEligibleEntries : HTTPException :=
  mkHTTPException 400 "No verified entries to draw from".
(** What the framework answers when a handler lets another exception out. *)
Definition InternalServerError : HTTPException :=
  mkHTTPException 500 "Internal Server Error".

(** An exception that is not an [HTTPException] leaves a handler as a 500. *)
Definition uncaught {A} (m : Result PyExc A) : Result HTTPException A :=
  match m with
  | Ok a => Ok a
  | Raise _ => Raise InternalServerError
  end.

(** ** Round controller *)

Definition get_round (db : Db) (round_id : string)
  : Result HTTPException LotteryRound.t :=
  let docs := take 1 (find (λ r, LotteryRound.round_id r = round_id)
                           (lotteryround db)) in
  match docs with
  | [] => Raise RoundNotFound
  | r :: _ => Ok r
  end.

Definition create_round (env : Env) (db : Db) (body : CreateRoundRequest.t)
  : Result HTTPException (LotteryRound.t * Db) :=
  let existing :=
    find_one (λ r, LotteryRound.round_id r = CreateRoundRequest.round_id body)
             (lotteryround db) in
  match existing with
  | Some _ => Raise RoundIdConflict
  | None =>
      let doc := {|
        LotteryRound._id := next_oid db;
        LotteryRound.round_id := CreateRoundRequest.round_id body;
        LotteryRound.is_active := true;
        LotteryRound.entry_fee_lamports := CreateRoundRequest.entry_fee_lamports body;
        LotteryRound.treasury_address := CreateRoundRequest.treasury_address body;
        LotteryRound.network := CreateRoundRequest.network body;
        LotteryRound.winner_address := None;
        LotteryRound.drawn_at := None;
        LotteryRound.created_at := now_utc env 0;
        LotteryRound.updated_at := now_utc env 1;
      |} in
      Ok (doc, {| lotteryround := insert_one (lotteryround db) doc;
                  entry := entry db;
                  next_oid := S (next_oid db) |})
  end.

Definition enter_round (env : Env) (db : Db) (round_id : string)
    (body : EnterRequest.t) : Result HTTPException (Entry.t * Db) :=
  do r <- get_round db round_id;
  if negb (LotteryRound.is_active r) then Raise RoundClosed
  else
    let existing :=
      find_one (λ e, Entry.tx_signature e = EnterRequest.tx_signature body)
               (entry db) in
    match existing with
    | Some _ => Raise SignatureConflict
    | None =>
        do verified <- uncaught
          (verify_signature_on_chain (post env) (LotteryRound.network r)
             (EnterRequest.tx_signature body)
             (Some (EnterRequest.wallet_address body))
             (Some (LotteryRound.treasury_address r)));
        let entry_doc := {|
          Entry._id := next_oid db;
          Entry.round_id := round_id;
          Entry.wallet_address := EnterRequest.wallet_address body;
          Entry.tx_signature := EnterRequest.tx_signature body;
          Entry.verified := verified;
          Entry.created_at := now_utc env 0;
          Entry.updated_at := now_utc env 1;
        |} in
        Ok (entry_doc, {| lotteryround := lotteryround db;
                          entry := insert_one (entry db) entry_doc;
                          next_oid := S (next_oid db) |})
    end.

(** [{"$set": {"verified": ..., "updated_at": ...}}]. *)
Definition set_verified (verified : bool) (now : datetime) (e : Entry.t) : Entry.t :=
  {| Entry._id := Entry._id e;
     Entry.round_id := Entry.round_id e;
     Entry.wallet_address := Entry.wallet_address e;
     Entry.tx_signature := Entry.tx_signature e;
     Entry.verified := verified;
     Entry.created_at := Entry.created_at e;
     Entry.updated_at := now |}.

Definition reverify_entry (env : Env) (db : Db) (round_id tx_signature : string)
  : Result HTTPException (Entry.t * Db) :=
  do r <- get_round db round_id;
  match find_one (λ e, Entry.round_id e = round_id ∧
                       Entry.tx_signature e = tx_signature) (entry db) with
  | None => Raise EntryNotFound
  | Some entry0 =>
      do verified <- uncaught
        (verify_signature_on_chain (post env) (LotteryRound.network r)
           tx_signature
           (Some (Entry.wallet_address entry0))
           (Some (LotteryRound.treasury_address r)));
      let entries :=
        update_one (λ e, Entry._id e = Entry._id entry0)
                   (set_verified verified (now_utc env 0)) (entry db) in
      match find_one (λ e, Entry._id e = Entry._id entry0) entries with
      | None => Raise InternalServerError
      | Some entry1 =>
          Ok (entry1, {| lotteryround := lotteryround db;
                         entry := entries;
                         next_oid := next_oid db |})
      end
  end.

(** [{"$set": {"winner_address": ..., "drawn_at": ..., "is_active": False,
    "updated_at": ...}}]. *)
Definition set_drawn (winner_address : string) (drawn_at updated_at : datetime)
    (r : LotteryRound.t) : LotteryRound.t :=
  {| LotteryRound._id := LotteryRound._id r;
     LotteryRound.round_id := LotteryRound.round_id r;
     LotteryRound.is_active := false;
     LotteryRound.entry_fee_lamports := LotteryRound.entry_fee_lamports r;
     LotteryRound.treasury_address := LotteryRound.treasury_address r;
     LotteryRound.network := LotteryRound.network r;
     LotteryRound.winner_address := Some winner_address;
     LotteryRound.drawn_at := Some drawn_at;
     LotteryRound.created_at := LotteryRound.created_at r;
     LotteryRound.updated_at := updated_at |}.

Definition draw_winner (env : Env) (db : Db) (round_id : string)
  : Result HTTPException (DrawResponse.t * Db) :=
  do r <- get_round db round_id;
  if negb (LotteryRound.is_active r) then Raise RoundAlreadyClosed
  else
    let verified_entries :=
      find (λ e, Entry.round_id e = round_id ∧ Entry.verified e = true)
           (entry db) in
    match verified_entries with
    | [] => Raise NoEligibleEntries
    | e0 :: es =>
        let winner := random_choice (random_draw env) e0 es in
        let db' := {|
          lotteryround :=
            update_one (λ r, LotteryRound.round_id r = round_id)
              (set_drawn (Entry.wallet_address winner)
                         (now_utc env 0) (now_utc env 1))
              (lotteryround db);
          entry := entry db;
          next_oid := next_oid db |} in
        do updated <- get_round db' round_id;
        Ok ({| DrawResponse.round := updated;
               DrawResponse.winner :=
                 {| Winner.wallet_address := Entry.wallet_address winner;
                    Winner.tx_signature := Entry.tx_signature winner |} |},
            db')
    end.

(** ** Sequences of requests *)

(** The routes that write to the store; the GET routes only read it. *)
Inductive Request : Type :=
| CreateRound (body : CreateRoundRequest.t)
| EnterRound (round_id : string) (body : EnterRequest.t)
| ReverifyEntry (round_id tx_signature : string)
| DrawWinner (round_id : string).

(** The store a handler leaves behind: its writes when it returns, the
    store as it was when it raises before its first write. *)
Definition db_after {A} (db : Db) (o : Result HTTPException (A * Db)) : Db :=
  match o with
  | Ok (_, db') => db'
  | Raise _ => db
  end.

Definition serve (env : Env) (db : Db) (req : Request) : Db :=
  match req with
  | CreateRound body => db_after db (create_round env db body)
  | EnterRound round_id body => db_after db (enter_round env db round_id body)
  | ReverifyEntry round_id tx_signature =>
      db_after db (reverify_entry env db round_id tx_signature)
  | DrawWinner round_id => db_after db (draw_winner env db round_id)
  end.

Fixpoint serve_all (db : Db) (reqs : list (Env * Request)) : Db :=
  match reqs with
  | [] => db
  | (env, req) :: reqs' => serve_all (serve env db req) reqs'
  end.

(** ** Concurrent submissions *)

(** Handlers run in a thread pool, so two requests interleave between
    their calls to the store and to the ledger. [enter_round] is cut at
    those calls: each step below is one of them, with the local code that
    follows it. *)
Inductive EnterState : Type :=
| AtGetRound
| AtFindDuplicate (r : LotteryRound.t)
| AtVerify (r : LotteryRound.t)
| AtInsert (r : LotteryRound.t) (verified : bool)
| Responded (response : Result HTTPException Entry.t).

(** [unique_index] tells whether the [entry] collection carries a unique
    index on [tx_signature]; the [database] module that would create one is
    not part of the sources, so both cases are kept. With the index,
    [insert_one] raises [DuplicateKeyError], which [enter_round] does not
    catch. *)
Definition enter_round_step (unique_index : bool) (env : Env) (round_id : string)
    (body : EnterRequest.t) (st : EnterState) (db : Db) : EnterState * Db :=
  match st with
  | AtGetRound =>
      match get_round db round_id with
      | Raise e => (Responded (Raise e), db)
      | Ok r =>
          if negb (LotteryRound.is_active r) then (Responded (Raise RoundClosed), db)
          else (AtFindDuplicate r, db)
      end
  | AtFindDuplicate r =>
      match find_one (λ e, Entry.tx_signature e = EnterRequest.tx_signature body)
                     (entry db) with
      | Some _ => (Responded (Raise SignatureConflict), db)
      | None => (AtVerify r, db)
      end
  | AtVerify r =>
      match uncaught
              (verify_signature_on_chain (post env) (LotteryRound.network r)
                 (EnterRequest.tx_signature body)
                 (Some (EnterRequest.wallet_address body))
                 (Some (LotteryRound.treasury_address r))) with
      | Raise e => (Responded (Raise e), db)
      | Ok verified => (AtInsert r verified, db)
      end
  | AtInsert r verified =>
      let entry_doc := {|
        Entry._id := next_oid db;
        Entry.round_id := round_id;
        Entry.wallet_address := EnterRequest.wallet_address body;
        Entry.tx_signature := EnterRequest.tx_signature body;
        Entry.verified := verified;
        Entry.created_at := now_utc env 0;
        Entry.updated_at := now_utc env 1;
      |} in
      let duplicate :=
        find_one (λ e, Entry.tx_signature e = EnterRequest.tx_signature body)
                 (entry db) in
      if unique_index && bool_decide (is_Some duplicate)
      then (Responded (Raise InternalServerError), db)
      else (Responded (Ok entry_doc),
            {| lotteryround := lotteryround db;
               entry := insert_one (entry db) entry_doc;
               next_oid := S (next_oid db) |})
  | Responded response => (Responded response, db)
  end.

(** One request running alone, to its response. *)
Definition enter_round_alone (unique_index : bool) (env : Env) (round_id : string)
    (body : EnterRequest.t) (db : Db) : EnterState * Db :=
  Nat.iter 4 (λ s, enter_round_step unique_index env round_id body s.1 s.2)
           (AtGetRound, db).

(** Two submissions in flight over one store. *)
Module Race.
Record t : Type := mk {
first : EnterState;
second : EnterState;
store : Db;
}.
End Race.

Inductive Turn : Type := First | Second.

(** A submission as it arrives: what it reads from outside, the path
    parameter and the body. *)
Definition Submission : Type := Env * string * EnterRequest.t.

Definition race_step (unique_index : bool) (a b : Submission) (turn : Turn)
    (s : Race.t) : Race.t :=
  match turn with
  | First =>
      let '(st, db) :=
        enter_round_step unique_index a.1.1 a.1.2 a.2 (Race.first s) (Race.store s) in
      Race.mk st (Race.second s) db
  | Second =>
      let '(st, db) :=
        enter_round_step unique_index b.1.1 b.1.2 b.2 (Race.second s) (Race.store s) in
      Race.mk (Race.first s) st db
  end.

Fixpoint race (unique_index : bool) (a b : Submission) (schedule : list Turn)
    (s : Race.t) : Race.t :=
  match schedule with
  | [] => s
  | turn :: schedule' => race unique_index a b schedule' (race_step unique_index a b turn s)
  end.

(** Both requests pass the duplicate check before either inserts. *)
Definition interleaved : list Turn :=
  [First; Second; First; Second; First; Second; First; Second].

(** ** Read-only routes *)

Definition list_entries (db : Db) (round_id : string) : list Entry.t :=
  find (λ e, Entry.round_id e = round_id) (entry db).

(** [find().sort("created_at", -1)]: newest first. The order the server
    gives to rounds of equal [created_at] is its own; the sort below fixes
    one. *)
Definition not_older (a b : LotteryRound.t) : Prop :=
  (LotteryRound.created_at b ≤ LotteryRound.created_at a)%Z.

Global Instance not_older_dec : RelDecision not_older :=
  λ a b, Z.le_dec (LotteryRound.created_at b) (LotteryRound.created_at a).


Definition get_round_detail (db : Db) (round_id : string)
  : Result HTTPException LotteryRound.t :=
  get_round db round_id.

Definition get_round_entries (db : Db) (round_id : string)
  : Result HTTPException (list Entry.t) :=
  do r <- get_round db round_id;
  Ok (list_entries db round_id).

(** ** Concurrent draws *)

(** [draw_winner] cut at its calls to the store, as [enter_round] is above. *)
Inductive DrawState : Type :=
| DrawAtGetRound
| DrawAtFindVerified
| DrawAtUpdate (winner : Entry.t)
| DrawAtReadBack (winner : Entry.t)
| DrawResponded (response : Result HTTPException DrawResponse.t).

Definition draw_winner_step (env : Env) (round_id : string)
    (st : DrawState) (db : Db) : DrawState * Db :=
  match st with
  | DrawAtGetRound =>
      match get_round db round_id with
      | Raise e => (DrawResponded (Raise e), db)
      | Ok r =>
          if negb (LotteryRound.is_active r)
          then (DrawResponded (Raise RoundAlreadyClosed), db)
          else (DrawAtFindVerified, db)
      end
  | DrawAtFindVerified =>
      match find (λ e, Entry.round_id e = round_id ∧ Entry.verified e = true)
                 (entry db) with
      | [] => (DrawResponded (Raise NoEligibleEntries), db)
      | e0 :: es => (DrawAtUpdate (random_choice (random_draw env) e0 es), db)
      end
  | DrawAtUpdate winner =>
      (DrawAtReadBack winner,
       {| lotteryround :=
            update_one (λ r, LotteryRound.round_id r = round_id)
              (set_drawn (Entry.wallet_address winner)
                         (now_utc env 0) (now_utc env 1))
              (lotteryround db);
          entry := entry db;
          next_oid := next_oid db |})
  | DrawAtReadBack winner =>
      match get_round db round_id with
      | Raise e => (DrawResponded (Raise e), db)
      | Ok updated =>
          (DrawResponded
             (Ok {| DrawResponse.round := updated;
                    DrawResponse.winner :=
                      {| Winner.wallet_address := Entry.wallet_address winner;
                         Winner.tx_signature := Entry.tx_signature winner |} |}),
           db)
      end
  | DrawResponded response => (DrawResponded response, db)
  end.

(** One draw running alone, to its response. *)
Definition draw_winner_alone (env : Env) (round_id : string) (db : Db)
  : DrawState * Db :=
  Nat.iter 4 (λ s, draw_winner_step env round_id s.1 s.2) (DrawAtGetRound, db).

(** Two draws in flight over one store. *)
Module DrawRace.
Record t : Type := mk {
  first : DrawState;
  second : DrawState;
  store : Db;
}.
End DrawRace.

Definition draw_race_step (a b : Env * string) (turn : Turn) (s : DrawRace.t)
  : DrawRace.t :=
  match turn with
  | First =>
      let '(st, db) :=
        draw_winner_step a.1 a.2 (DrawRace.first s) (DrawRace.store s) in
      DrawRace.mk st (DrawRace.second s) db
  | Second =>
      let '(st, db) :=
        draw_winner_step b.1 b.2 (DrawRace.second s) (DrawRace.store s) in
      DrawRace.mk (DrawRace.first s) st db
  end.

Fixpoint draw_race (a b : Env * string) (schedule : list Turn) (s : DrawRace.t)
  : DrawRace.t :=
  match schedule with
  | [] => s
  | turn :: schedule' => draw_race a b schedule' (draw_race_step a b turn s)
  end.

(** ** Vocabulary of the properties *)

(** The endpoint a network name resolves to. *)
Definition endpoint_of (network : string) : string :=
  default "https://api.devnet.solana.com" (endpoint_lookup network NETWORK_ENDPOINTS).

(** The failure modes of the ledger query: the request raises (time-out or
    transport failure), the body is not JSON, the reply has no [result] or a
    null one (transaction not found), or the fetched transaction carries a
    non-null [meta.err] (on-chain execution error). *)
Inductive failure_mode : Result PyExc Response → Prop :=
| query_raises e :
    failure_mode (Raise e)
| body_not_json :
    failure_mode (Ok (mkResponse None))
| result_absent d :
    dict_lookup "result" d = None →
    failure_mode (Ok (mkResponse (Some (JDict d))))
| result_null d :
    dict_lookup "result" d = Some JNull →
    failure_mode (Ok (mkResponse (Some (JDict d))))
| execution_error d fields meta err :
    dict_lookup "result" d = Some (JDict fields) →
    dict_lookup "meta" fields = Some (JDict meta) →
    dict_lookup "err" meta = Some err →
    err ≠ JNull →
    failure_mode (Ok (mkResponse (Some (JDict d)))).

(** A [getTransaction] reply for a found transaction with the given [meta]
    (when present) and account keys. *)
Definition transaction_reply (meta : option json) (account_keys : json) : json :=
  let message := JDict [("accountKeys", account_keys)] in
  let transaction := ("transaction", JDict [("message", message)]) in
  let result :=
    match meta with
    | Some m => JDict [("meta", m); transaction]
    | None => JDict [transaction]
    end in
  JDict [("jsonrpc", JStr "2.0"); ("result", result); ("id", JNum 1)].

(** A ledger that answers every query with the same reply. *)
Definition always (reply : Result PyExc Response) : Ledger := λ _ _, reply.

Definition replies (data : json) : Ledger := always (Ok (mkResponse (Some data))).

(** The round invariant: [winner_address] and [drawn_at] are both null or
    both set, and once set [is_active] is false. *)
Definition round_invariant (r : LotteryRound.t) : bool :=
  match LotteryRound.winner_address r, LotteryRound.drawn_at r with
  | None, None => true
  | Some _, Some _ => negb (LotteryRound.is_active r)
  | _, _ => false
  end.

(** The round exists and is no longer open. *)
Definition closed (db : Db) (round_id : string) : Prop :=
  ∃ r, get_round db round_id = Ok r ∧ LotteryRound.is_active r = false.

(** The driver never hands out an [ObjectId] twice: the entries' ids are
    distinct and below the next one. *)
Definition entry_ids_fresh (db : Db) : Prop :=
  NoDup (Entry._id <$> entry db) ∧
  Forall (λ e, Entry._id e < next_oid db) (entry db).

(** An expected address passes the presence check on a list of keys: it is
    not given, or empty, or one of the keys. *)
Definition passes (expected : option string) (keys : list json) : Prop :=
  match expected with
  | None => True
  | Some a => a = "" ∨ JStr a ∈ keys
  end.

(** A network name the endpoint table knows. *)
Definition known_network (network : string) : Prop :=
  network = "devnet" ∨ network = "testnet" ∨ network = "mainnet-beta".

(** No two rounds share a [round_id]. *)
Definition round_ids_unique (db : Db) : Prop :=
  NoDup (LotteryRound.round_id <$> lotteryround db).

(** No two entries share a [tx_signature]. *)
Definition signatures_unique (db : Db) : Prop :=
  NoDup (Entry.tx_signature <$> entry db).

(** Every entry names a stored round. *)
Definition entries_reference_rounds (db : Db) : Prop :=
  ∀ e, e ∈ entry db →
       ∃ r, r ∈ lotteryround db ∧ LotteryRound.round_id r = Entry.round_id e.

(** A round is either open with no winner and no draw time, or closed with
    both. *)
Definition open_or_drawn (r : LotteryRound.t) : bool :=
  match LotteryRound.winner_address r, LotteryRound.drawn_at r with
  | None, None => LotteryRound.is_active r
  | Some _, Some _ => negb (LotteryRound.is_active r)
  | _, _ => false
  end.

(** Every recorded winner is the wallet of an entry of that round. *)
Definition winners_are_entrants (db : Db) : Prop :=
  ∀ r w, r ∈ lotteryround db → LotteryRound.winner_address r = Some w →
         ∃ e, e ∈ entry db ∧
              Entry.round_id e = LotteryRound.round_id r ∧
              Entry.wallet_address e = w.

(** What a round is created with and keeps. *)
Definition round_settings (r : LotteryRound.t)
  : ObjectId * string * Z * string * string * datetime :=
  (LotteryRound._id r, LotteryRound.round_id r, LotteryRound.entry_fee_lamports r,
   LotteryRound.treasury_address r, LotteryRound.network r,
   LotteryRound.created_at r).

(** What an entry is created with and keeps. *)
Definition entry_identity (e : Entry.t)
  : ObjectId * string * string * string * datetime :=
  (Entry._id e, Entry.round_id e, Entry.wallet_address e, Entry.tx_signature e,
   Entry.created_at e).

(** ** Scenarios *)

Definition clock : nat → datetime := λ n, (1700000000 + Z.of_nat n)%Z.

(** The ledger confirms the transaction of wallet [W1] to [TREASURY1]. *)
Definition env_confirmed : Env :=
  mkEnv (replies (transaction_reply (Some (JDict [("err", JNull)]))
                    (JList [JStr "W1"; JStr "TREASURY1"])))
        clock 0.

(** The ledger does not know the transaction. *)
Definition env_not_found : Env :=
  mkEnv (replies (JDict [("jsonrpc", JStr "2.0"); ("result", JNull); ("id", JNum 1)]))
        clock 0.

Definition round_R1 : CreateRoundRequest.t :=
  CreateRoundRequest.mk "R-1" 1000000 "TREASURY1" "devnet".

Definition entry_W1 : EnterRequest.t := EnterRequest.mk "W1" "SIG1".

(** Round [R-1] is created and [W1] enters it with a confirmed payment. *)
Definition db_entered : Db :=
  serve_all empty_db
    [(env_confirmed, CreateRound round_R1);
     (env_confirmed, EnterRound "R-1" entry_W1)].

(** Then the round is drawn. *)
Definition db_drawn : Db := serve env_confirmed db_entered (DrawWinner "R-1").

(** Then the winner's entry is verified again, when the ledger no longer
    knows the transaction. *)
Definition db_drawn_unverified : Db :=
  serve env_not_found db_drawn (ReverifyEntry "R-1" "SIG1").

(** * Properties *)

(** ** Ledger verifier *)

Lemma resolve_endpoint_ok network : resolve_endpoint network = Ok (endpoint_of network).
Proof. reflexivity. Qed.

Lemma verify_unfold post network tx_signature w t :
  verify_signature_on_chain post network tx_signature w t =
  Ok (try_except (verify_try_block post (endpoint_of network) tx_signature w t) false).
Proof. reflexivity. Qed.

Lemma dict_lookup_in k d v :
  dict_lookup k d = Some v → py_in k (JDict d) = Ok true.
Proof. intros Hk. simpl. rewrite Hk. reflexivity. Qed.

Lemma dict_lookup_not_in k d :
  dict_lookup k d = None → py_in k (JDict d) = Ok false.
Proof. intros Hk. simpl. rewrite Hk. reflexivity. Qed.

Lemma dict_lookup_truthy k d v :
  dict_lookup k d = Some v → truthy (JDict d) = true.
Proof. destruct d; [discriminate | reflexivity]. Qed.

Lemma is_None_false v : v ≠ JNull → is_None v = false.
Proof. destruct v; simpl; congruence. Qed.

(** C6. The ledger verifier never raises: on every ledger and for all
    arguments it returns a boolean; and it returns [False] whenever the
    query raises (time-out, transport failure), the transaction is not
    found (absent or null [result]) or the fetched transaction reports an
    on-chain execution error. *)
Theorem verifier_total_and_fail_closed
    (post : Ledger) (network tx_signature : string)
    (expected_wallet expected_treasury : option string) :
  (∃ b : bool,
     verify_signature_on_chain post network tx_signature
       expected_wallet expected_treasury = Ok b) ∧
  (failure_mode (post (endpoint_of network) tx_signature) →
   verify_signature_on_chain post network tx_signature
     expected_wallet expected_treasury = Ok false).
Proof.
  rewrite verify_unfold. split; [eauto|].
  intros Hfail. f_equal. unfold verify_try_block.
  destruct (post (endpoint_of network) tx_signature) as [resp|e];
    inversion Hfail as [e' | | d Hd | d Hd | d fields meta err Hd Hm Herr Hnn];
    subst; cbn [bind Response_json body try_except]; try reflexivity.
  - rewrite (dict_lookup_not_in _ _ Hd). reflexivity.
  - rewrite (dict_lookup_in _ _ _ Hd). cbn [bind negb py_getitem]. rewrite Hd.
    reflexivity.
  - rewrite (dict_lookup_in _ _ _ Hd). cbn [bind negb py_getitem]. rewrite Hd.
    cbn [bind is_None py_get]. rewrite Hm. cbn [default from_option id].
    unfold reports_error. rewrite (dict_lookup_truthy _ _ _ Herr).
    cbn [py_get bind]. rewrite Herr. cbn [default from_option id].
    rewrite (is_None_false _ Hnn). reflexivity.
Qed.

Lemma verifier_total_and_fail_closed_witness :
  let post := replies (transaction_reply
                (Some (JDict [("err", JDict [("InstructionError", JList [])])]))
                (JList [JStr "W1"; JStr "TREASURY1"])) in
  failure_mode (post (endpoint_of "devnet") "SIG1") ∧
  verify_signature_on_chain post "devnet" "SIG1" (Some "W1") (Some "TREASURY1")
    = Ok false.
Proof.
  assert (Hfail : failure_mode
            (replies (transaction_reply
                (Some (JDict [("err", JDict [("InstructionError", JList [])])]))
                (JList [JStr "W1"; JStr "TREASURY1"]))
               (endpoint_of "devnet") "SIG1")).
  { eapply execution_error; [reflexivity | reflexivity | reflexivity | discriminate]. }
  split; [exact Hfail|].
  exact (proj2 (verifier_total_and_fail_closed _ "devnet" "SIG1"
                  (Some "W1") (Some "TREASURY1")) Hfail).
Defined.

Lemma bind_Ok {E A B} (m : Result E A) (k : A → Result E B) b :
  bind m k = Ok b → ∃ a, m = Ok a ∧ k a = Ok b.
Proof. destruct m as [a|e]; [eauto | discriminate]. Qed.

Lemma try_except_true {E} (m : Result E bool) :
  try_except m false = true → m = Ok true.
Proof. destruct m as [[]|e]; simpl; congruence. Qed.

Lemma str_eq_json_true x v : str_eq_json x v = true → v = JStr x.
Proof.
  destruct v; simpl; try discriminate.
  intros Heq. apply String.eqb_eq in Heq. congruence.
Qed.

(** Membership of a [str] in a decoded list is equality with one of its
    elements. *)
Lemma py_in_list x l : py_in x (JList l) = Ok true → JStr x ∈ l.
Proof.
  simpl. intros [= Hex]. apply existsb_exists in Hex as (v & Hin & Heq).
  apply str_eq_json_true in Heq. subst v. by apply list_elem_of_In.
Qed.

Lemma supplied_and_missing_false a account_keys :
  a ≠ "" →
  supplied_and_missing (Some a) account_keys = Ok false →
  py_in a account_keys = Ok true.
Proof.
  intros Ha. unfold supplied_and_missing.
  destruct (String.eqb_spec a "") as [|_]; [done|].
  intros Hb. apply bind_Ok in Hb as (present & Hin & Hneg).
  destruct present; [done | discriminate].
Qed.

Lemma account_presence_checks_true result w t :
  w ≠ "" → t ≠ "" →
  account_presence_checks result (Some w) (Some t) = Ok true →
  ∃ account_keys,
    fetched_account_keys result = Ok account_keys ∧
    py_in w account_keys = Ok true ∧ py_in t account_keys = Ok true.
Proof.
  intros Hw Ht. unfold account_presence_checks. intros Hc.
  apply bind_Ok in Hc as (keys & Hkeys & Hc).
  apply bind_Ok in Hc as (wm & Hwm & Hc).
  destruct wm; [discriminate|].
  apply bind_Ok in Hc as (tm & Htm & Hc).
  destruct tm; [discriminate|].
  exists keys. eauto using supplied_and_missing_false.
Qed.

(** C7, as amended. When both [expected_wallet] and [expected_treasury] are
    supplied and neither is the empty string, the verifier returns [True]
    only if both literal strings are members of the fetched transaction's
    [accountKeys]: for a list of keys, each equals one of its elements,
    character for character. *)
Theorem verifier_requires_both_accounts
    (post : Ledger) (network tx_signature w t : string) :
  w ≠ "" → t ≠ "" →
  verify_signature_on_chain post network tx_signature (Some w) (Some t) = Ok true →
  ∃ resp data result account_keys,
    post (endpoint_of network) tx_signature = Ok resp ∧
    Response_json resp = Ok data ∧
    py_getitem data "result" = Ok result ∧
    fetched_account_keys result = Ok account_keys ∧
    py_in w account_keys = Ok true ∧
    py_in t account_keys = Ok true ∧
    (∀ keys, account_keys = JList keys → JStr w ∈ keys ∧ JStr t ∈ keys).
Proof.
  intros Hw Ht. rewrite verify_unfold. intros [= Hv].
  apply try_except_true in Hv. unfold verify_try_block in Hv.
  apply bind_Ok in Hv as (resp & Hresp & Hv).
  apply bind_Ok in Hv as (data & Hdata & Hv).
  apply bind_Ok in Hv as (has & Hhas & Hv).
  destruct has; [|discriminate]. cbn [negb] in Hv.
  apply bind_Ok in Hv as (result & Hresult & Hv).
  destruct (is_None result); [discriminate|].
  apply bind_Ok in Hv as (meta & Hmeta & Hv).
  apply bind_Ok in Hv as (errored & Herrored & Hv).
  destruct errored; [discriminate|].
  apply account_presence_checks_true in Hv as (keys & Hkeys & Hinw & Hint); [|done..].
  exists resp, data, result, keys. repeat split; try done.
  - subst keys. by apply py_in_list.
  - subst keys. by apply py_in_list.
Qed.

Lemma verifier_requires_both_accounts_witness :
  let post := replies (transaction_reply (Some (JDict [("err", JNull)]))
                         (JList [JStr "W1"; JStr "TREASURY1"])) in
  ∃ resp data result account_keys,
    post (endpoint_of "devnet") "SIG1" = Ok resp ∧
    Response_json resp = Ok data ∧
    py_getitem data "result" = Ok result ∧
    fetched_account_keys result = Ok account_keys ∧
    py_in "W1" account_keys = Ok true ∧
    py_in "TREASURY1" account_keys = Ok true ∧
    (∀ keys, account_keys = JList keys → JStr "W1" ∈ keys ∧ JStr "TREASURY1" ∈ keys).
Proof.
  intros post.
  apply (verifier_requires_both_accounts post "devnet" "SIG1" "W1" "TREASURY1");
    [discriminate | discriminate | reflexivity].
Defined.

(** C7, as stated, fails: an empty [expected_wallet] is supplied but not
    checked, so the verifier returns [True] although the empty string is not
    among the account keys. *)
Lemma verifier_skips_empty_wallet :
  let keys := [JStr "TREASURY1"] in
  let post := replies (transaction_reply (Some (JDict [("err", JNull)])) (JList keys)) in
  verify_signature_on_chain post "devnet" "SIG1" (Some "") (Some "TREASURY1")
    = Ok true ∧
  py_in "" (JList keys) = Ok false ∧
  JStr "" ∉ keys.
Proof.
  repeat split; try reflexivity.
  intros Hin. apply list_elem_of_In in Hin. simpl in Hin.
  destruct Hin as [[=]|[]].
Qed.

(** The membership test does no case folding. *)
Example verifier_is_case_sensitive :
  verify_signature_on_chain
    (replies (transaction_reply (Some (JDict [("err", JNull)]))
                (JList [JStr "w1"; JStr "TREASURY1"])))
    "devnet" "SIG1" (Some "W1") (Some "TREASURY1") = Ok false.
Proof. reflexivity. Qed.

(** C10. When the reply carries a [result] object without a [meta] field,
    or with a null one, the execution-error check is skipped: the verdict
    is that of the account presence checks alone. *)
Theorem verifier_skips_error_check_without_meta
    (post : Ledger) (network tx_signature : string)
    (expected_wallet expected_treasury : option string)
    (d fields : list (string * json)) :
  post (endpoint_of network) tx_signature = Ok (mkResponse (Some (JDict d))) →
  dict_lookup "result" d = Some (JDict fields) →
  dict_lookup "meta" fields = None ∨ dict_lookup "meta" fields = Some JNull →
  verify_signature_on_chain post network tx_signature
    expected_wallet expected_treasury =
  Ok (try_except
        (account_presence_checks (JDict fields) expected_wallet expected_treasury)
        false).
Proof.
  intros Hpost Hd Hmeta. rewrite verify_unfold. f_equal.
  unfold verify_try_block. rewrite Hpost.
  cbn [bind Response_json body]. rewrite (dict_lookup_in _ _ _ Hd).
  cbn [bind negb py_getitem]. rewrite Hd. cbn [bind is_None py_get].
  destruct Hmeta as [-> | ->]; reflexivity.
Qed.

Lemma verifier_skips_error_check_without_meta_witness :
  let post := replies (transaction_reply None (JList [JStr "W1"; JStr "TREASURY1"])) in
  verify_signature_on_chain post "devnet" "SIG1" (Some "W1") (Some "TREASURY1") = Ok true.
Proof.
  intros post.
  rewrite (verifier_skips_error_check_without_meta post "devnet" "SIG1"
             (Some "W1") (Some "TREASURY1") _ _ eq_refl eq_refl (or_introl eq_refl)).
  reflexivity.
Defined.

(** ** Collections *)

Section CollectionFacts.
Context {A : Type} (P : A → Prop) `{!∀ x, Decision (P x)}.

Lemma find_one_nil : find_one P [] = None.
Proof. reflexivity. Qed.

Lemma find_one_cons x c :
  find_one P (x :: c) = if decide (P x) then Some x else find_one P c.
Proof.
  unfold find_one. cbn [list_find]. case_decide; [reflexivity|].
  destruct (list_find P c) as [[i y]|]; reflexivity.
Qed.

Lemma update_one_cons set x c :
  update_one P set (x :: c) =
  if decide (P x) then set x :: c else x :: update_one P set c.
Proof.
  unfold update_one. cbn [list_find]. case_decide; [reflexivity|].
  destruct (list_find P c) as [[i y]|]; reflexivity.
Qed.

(** [find(...).limit(1)] holds the document [find_one] returns. *)
Lemma find_limit_1 c : take 1 (find P c) = option_list (find_one P c).
Proof.
  induction c as [|x c IH]; [reflexivity|].
  rewrite find_one_cons. unfold find in *. rewrite filter_cons.
  case_decide; [reflexivity | exact IH].
Qed.

Lemma find_one_Some c x : find_one P c = Some x → x ∈ c ∧ P x.
Proof.
  induction c as [|y c IH]; [discriminate|].
  rewrite find_one_cons. case_decide.
  - intros [= ->]. split; [left | done].
  - intros Hx. destruct (IH Hx). split; [by right | done].
Qed.

Lemma find_one_None c : find_one P c = None ↔ ∀ x, x ∈ c → ¬ P x.
Proof.
  induction c as [|y c IH].
  - split; [intros _ x Hx; inversion Hx | reflexivity].
  - rewrite find_one_cons. case_decide.
    + split; [discriminate|]. intros Hall. destruct (Hall y); [left | done].
    + rewrite IH. split.
      * intros Hall x Hx. inversion Hx; subst; [done | by apply Hall].
      * intros Hall x Hx. apply Hall. by right.
Qed.

Lemma find_one_is_Some c x : x ∈ c → P x → is_Some (find_one P c).
Proof.
  intros Hx HP. destruct (find_one P c) as [y|] eqn:Hf; [eauto|].
  destruct (proj1 (find_one_None c) Hf x Hx HP).
Qed.

Lemma find_one_insert_one c doc :
  find_one P (insert_one c doc) =
  match find_one P c with
  | Some x => Some x
  | None => if decide (P doc) then Some doc else None
  end.
Proof.
  unfold insert_one. induction c as [|y c IH].
  - cbn [app]. rewrite find_one_cons, find_one_nil. reflexivity.
  - cbn [app]. rewrite !find_one_cons.
    destruct (decide (P y)); [reflexivity | exact IH].
Qed.

(** The document an update rewrites is the one [find_one] returns. *)
Lemma find_one_update_one_same set c :
  (∀ x, P x → P (set x)) →
  find_one P (update_one P set c) = set <$> find_one P c.
Proof.
  intros Hset. induction c as [|y c IH]; [reflexivity|].
  rewrite update_one_cons, find_one_cons. case_decide as Hy.
  - rewrite find_one_cons, decide_True by auto. reflexivity.
  - rewrite find_one_cons, decide_False by done. exact IH.
Qed.

Lemma update_one_Forall (I : A → Prop) set c :
  (∀ x, I x → I (set x)) → Forall I c → Forall I (update_one P set c).
Proof.
  intros Hset. induction 1 as [|y c Hy Hc IH]; [constructor|].
  rewrite update_one_cons. case_decide; constructor; auto.
Qed.

(** An update rewrites one document in place, the first that matches. *)
Lemma update_one_lookup set c x :
  find_one P c = Some x →
  ∃ i, c !! i = Some x ∧ update_one P set c = <[i := set x]> c ∧
       ∀ j y, j < i → c !! j = Some y → ¬ P y.
Proof.
  revert x. induction c as [|y c IH]; [discriminate|]. intros x.
  rewrite find_one_cons, update_one_cons. case_decide as Hy.
  - intros [= ->]. exists 0. split_and!; [done | done | intros; lia].
  - intros Hx. destruct (IH x Hx) as (i & Hi & Hupd & Hbefore).
    exists (S i). split_and!; [done | by rewrite Hupd |].
    intros [|j] z Hj Hz; [by injection Hz as -> |].
    apply (Hbefore j z); [lia | done].
Qed.

End CollectionFacts.

(** An update under a filter [Q] that excludes [P], before and after, is
    invisible to [find_one P]. *)
Lemma find_one_update_one_other {A} (P Q : A → Prop)
    `{!∀ x, Decision (P x)} `{!∀ x, Decision (Q x)} set c :
  (∀ x, Q x → ¬ P x ∧ ¬ P (set x)) →
  find_one P (update_one Q set c) = find_one P c.
Proof.
  intros Hset. induction c as [|y c IH]; [reflexivity|].
  rewrite update_one_cons. case_decide as Hy.
  - destruct (Hset y Hy). rewrite !find_one_cons, !decide_False by done.
    reflexivity.
  - rewrite !find_one_cons, IH. reflexivity.
Qed.


(** ** Round controller *)

Lemma get_round_find_one db round_id :
  get_round db round_id =
  match find_one (λ r, LotteryRound.round_id r = round_id) (lotteryround db) with
  | Some r => Ok r
  | None => Raise RoundNotFound
  end.
Proof.
  unfold get_round. rewrite find_limit_1.
  destruct (find_one _ _); reflexivity.
Qed.

Lemma get_round_Ok db round_id r :
  get_round db round_id = Ok r →
  find_one (λ r, LotteryRound.round_id r = round_id) (lotteryround db) = Some r.
Proof.
  rewrite get_round_find_one. destruct (find_one _ _); [congruence | discriminate].
Qed.

Lemma verify_total post network tx_signature w t :
  ∃ b, verify_signature_on_chain post network tx_signature w t = Ok b.
Proof. rewrite verify_unfold. eauto. Qed.

(** C4. A submission to an existing, open round whose [tx_signature] is
    already carried by some entry, of this round or another, verified or
    not, fails with Conflict, and the store is left as it was. *)
Theorem duplicate_signature_conflicts
    (env : Env) (db : Db) (round_id : string) (body : EnterRequest.t)
    (r : LotteryRound.t) (e : Entry.t) :
  get_round db round_id = Ok r →
  LotteryRound.is_active r = true →
  e ∈ entry db →
  Entry.tx_signature e = EnterRequest.tx_signature body →
  enter_round env db round_id body = Raise SignatureConflict ∧
  serve env db (EnterRound round_id body) = db.
Proof.
  intros Hr Hactive He Hsig.
  assert (Henter : enter_round env db round_id body = Raise SignatureConflict).
  { unfold enter_round. rewrite Hr. cbn [bind]. rewrite Hactive. cbn [negb].
    destruct (find_one_is_Some
                (λ e, Entry.tx_signature e = EnterRequest.tx_signature body)
                (entry db) e He Hsig) as [e' ->].
    reflexivity. }
  split; [exact Henter|]. cbn [serve]. rewrite Henter. reflexivity.
Qed.

(** The same signature is refused in a second round, although its first
    entry is unverified. *)
Lemma duplicate_signature_conflicts_witness :
  let db := serve_all empty_db
    [(env_not_found, CreateRound round_R1);
     (env_not_found, CreateRound (CreateRoundRequest.mk "R-2" 5 "TREASURY2" "testnet"));
     (env_not_found, EnterRound "R-1" entry_W1)] in
  let body := EnterRequest.mk "W2" "SIG1" in
  enter_round env_confirmed db "R-2" body = Raise SignatureConflict ∧
  serve env_confirmed db (EnterRound "R-2" body) = db.
Proof.
  intros db body.
  apply (duplicate_signature_conflicts env_confirmed db "R-2" body
           (LotteryRound.mk 1 "R-2" true 5 "TREASURY2" "testnet" None None
              (clock 0) (clock 1))
           (Entry.mk 2 "R-1" "W1" "SIG1" false (clock 0) (clock 1)));
    [reflexivity | reflexivity | | reflexivity].
  apply list_elem_of_In. left. reflexivity.
Defined.

(** C5. A submission to an existing, open round with a signature no entry
    carries succeeds: the verifier returns a boolean, and the entry is
    appended to the collection with [verified] equal to that boolean,
    [False] included, and returned to the caller. *)
Theorem fresh_entry_stored_with_verdict
    (env : Env) (db : Db) (round_id : string) (body : EnterRequest.t)
    (r : LotteryRound.t) :
  get_round db round_id = Ok r →
  LotteryRound.is_active r = true →
  (∀ e, e ∈ entry db → Entry.tx_signature e ≠ EnterRequest.tx_signature body) →
  ∃ verdict : bool,
    verify_signature_on_chain (post env) (LotteryRound.network r)
      (EnterRequest.tx_signature body)
      (Some (EnterRequest.wallet_address body))
      (Some (LotteryRound.treasury_address r)) = Ok verdict ∧
    let entry_doc :=
      Entry.mk (next_oid db) round_id (EnterRequest.wallet_address body)
        (EnterRequest.tx_signature body) verdict (now_utc env 0) (now_utc env 1) in
    enter_round env db round_id body =
      Ok (entry_doc, mkDb (lotteryround db) (entry db ++ [entry_doc]) (S (next_oid db))).
Proof.
  intros Hr Hactive Hfresh.
  destruct (verify_total (post env) (LotteryRound.network r)
              (EnterRequest.tx_signature body)
              (Some (EnterRequest.wallet_address body))
              (Some (LotteryRound.treasury_address r))) as [verdict Hv].
  exists verdict. split; [exact Hv|].
  unfold enter_round. rewrite Hr. cbn [bind]. rewrite Hactive. cbn [negb].
  rewrite (proj2 (find_one_None
                    (λ e, Entry.tx_signature e = EnterRequest.tx_signature body)
                    (entry db)) Hfresh).
  rewrite Hv. reflexivity.
Qed.

(** An entry whose transaction the ledger does not know is stored, with
    [verified = false]. *)
Lemma fresh_entry_stored_with_verdict_witness :
  let db := serve env_not_found empty_db (CreateRound round_R1) in
  let entry_doc := Entry.mk 1 "R-1" "W1" "SIG1" false (clock 0) (clock 1) in
  enter_round env_not_found db "R-1" entry_W1 =
    Ok (entry_doc, mkDb (lotteryround db) [entry_doc] 2).
Proof.
  intros db entry_doc.
  destruct (fresh_entry_stored_with_verdict env_not_found db "R-1" entry_W1
              (LotteryRound.mk 0 "R-1" true 1000000 "TREASURY1" "devnet" None None
                 (clock 0) (clock 1)))
    as (verdict & Hverdict & Henter);
    [reflexivity | reflexivity | intros e He; inversion He |].
  injection Hverdict as <-. exact Henter.
Defined.

Lemma random_choice_elem {A} (k : nat) (x : A) (xs : list A) :
  random_choice k x xs ∈ x :: xs.
Proof.
  unfold random_choice. apply list_elem_of_In, nth_In.
  cbn [length]. apply Nat.mod_upper_bound. lia.
Qed.

(** C1, as amended. A successful draw returns the wallet and signature of an
    entry of that round with [verified = true]; and on an existing, open
    round without any such entry the draw fails with NoEligibleEntries. *)
Theorem draw_selects_verified_entry (env : Env) (db : Db) (round_id : string) :
  (∀ resp db',
     draw_winner env db round_id = Ok (resp, db') →
     ∃ e, e ∈ entry db ∧
          Entry.round_id e = round_id ∧
          Entry.verified e = true ∧
          DrawResponse.winner resp =
            Winner.mk (Entry.wallet_address e) (Entry.tx_signature e)) ∧
  (∀ r,
     get_round db round_id = Ok r →
     LotteryRound.is_active r = true →
     (∀ e, e ∈ entry db → Entry.round_id e = round_id → Entry.verified e = false) →
     draw_winner env db round_id = Raise NoEligibleEntries).
Proof.
  split.
  - intros resp db'. unfold draw_winner. intros Hdraw.
    apply bind_Ok in Hdraw as (r & Hr & Hdraw).
    destruct (LotteryRound.is_active r); [|discriminate]. cbn [negb] in Hdraw.
    destruct (find _ (entry db)) as [|e0 es] eqn:Hfind; [discriminate|].
    apply bind_Ok in Hdraw as (updated & _ & [= <- _]).
    pose proof (random_choice_elem (random_draw env) e0 es) as Hin.
    rewrite <- Hfind in Hin. unfold find in Hin.
    apply list_elem_of_filter in Hin as [[Hrid Hver] Hin].
    eexists. split_and!; [exact Hin | exact Hrid | exact Hver | reflexivity].
  - intros r Hr Hactive Hnone. unfold draw_winner. rewrite Hr. cbn [bind].
    rewrite Hactive. cbn [negb].
    destruct (find _ (entry db)) as [|e0 es] eqn:Hfind; [reflexivity|].
    assert (Hin : e0 ∈ find (λ e, Entry.round_id e = round_id ∧ Entry.verified e = true)
                         (entry db)) by (rewrite Hfind; left).
    unfold find in Hin. apply list_elem_of_filter in Hin as [[Hrid Hver] Hin].
    rewrite (Hnone e0 Hin Hrid) in Hver. discriminate.
Qed.

Lemma draw_selects_verified_entry_witness :
  (∃ e, e ∈ entry db_entered ∧
        Entry.round_id e = "R-1" ∧
        Entry.verified e = true ∧
        Winner.mk "W1" "SIG1" = Winner.mk (Entry.wallet_address e) (Entry.tx_signature e)) ∧
  draw_winner env_confirmed
    (serve_all empty_db [(env_not_found, CreateRound round_R1);
                         (env_not_found, EnterRound "R-1" entry_W1)])
    "R-1" = Raise NoEligibleEntries.
Proof.
  split.
  - exact (proj1 (draw_selects_verified_entry env_confirmed db_entered "R-1")
             _ _ eq_refl).
  - apply (proj2 (draw_selects_verified_entry env_confirmed _ "R-1")
             (LotteryRound.mk 0 "R-1" true 1000000 "TREASURY1" "devnet" None None
                (clock 0) (clock 1)));
      [reflexivity | reflexivity |].
    intros e He _. apply list_elem_of_In in He. destruct He as [<-|[]]. reflexivity.
Defined.

(** C1, as stated, fails on a closed round: after a draw, re-verification
    can leave round [R-1] without any verified entry, and a draw then fails
    with InvalidState, not with NoEligibleEntries. *)
Lemma draw_on_closed_round_is_invalid_state :
  (∃ r, get_round db_drawn_unverified "R-1" = Ok r) ∧
  (∀ e, e ∈ entry db_drawn_unverified →
        Entry.round_id e = "R-1" → Entry.verified e = false) ∧
  draw_winner env_confirmed db_drawn_unverified "R-1" = Raise RoundAlreadyClosed ∧
  RoundAlreadyClosed ≠ NoEligibleEntries.
Proof.
  split_and!.
  - eexists. reflexivity.
  - intros e He _. apply list_elem_of_In in He. destruct He as [<-|[]]. reflexivity.
  - reflexivity.
  - discriminate.
Qed.

(** *** What each handler writes *)

Lemma create_round_Ok env db body doc db' :
  create_round env db body = Ok (doc, db') →
  doc = LotteryRound.mk (next_oid db) (CreateRoundRequest.round_id body) true
          (CreateRoundRequest.entry_fee_lamports body)
          (CreateRoundRequest.treasury_address body)
          (CreateRoundRequest.network body) None None
          (now_utc env 0) (now_utc env 1) ∧
  db' = mkDb (lotteryround db ++ [doc]) (entry db) (S (next_oid db)).
Proof.
  unfold create_round. destruct (find_one _ _); [discriminate|].
  intros [= <- <-]. split; reflexivity.
Qed.

Lemma enter_round_Ok env db round_id body e db' :
  enter_round env db round_id body = Ok (e, db') →
  Entry._id e = next_oid db ∧
  db' = mkDb (lotteryround db) (entry db ++ [e]) (S (next_oid db)).
Proof.
  unfold enter_round. intros Henter.
  apply bind_Ok in Henter as (r & _ & Henter).
  destruct (negb _); [discriminate|].
  destruct (find_one _ _); [discriminate|].
  apply bind_Ok in Henter as (verified & _ & [= <- <-]).
  split; reflexivity.
Qed.

Lemma reverify_entry_Ok env db round_id tx_signature e1 db' :
  reverify_entry env db round_id tx_signature = Ok (e1, db') →
  ∃ r e0 verified,
    get_round db round_id = Ok r ∧
    find_one (λ e, Entry.round_id e = round_id ∧ Entry.tx_signature e = tx_signature)
             (entry db) = Some e0 ∧
    verify_signature_on_chain (post env) (LotteryRound.network r) tx_signature
      (Some (Entry.wallet_address e0)) (Some (LotteryRound.treasury_address r))
      = Ok verified ∧
    db' = mkDb (lotteryround db)
            (update_one (λ e, Entry._id e = Entry._id e0)
               (set_verified verified (now_utc env 0)) (entry db))
            (next_oid db) ∧
    find_one (λ e, Entry._id e = Entry._id e0) (entry db') = Some e1.
Proof.
  unfold reverify_entry. intros Hre.
  apply bind_Ok in Hre as (r & Hr & Hre).
  destruct (find_one _ (entry db)) as [e0|] eqn:He0; [|discriminate].
  apply bind_Ok in Hre as (verified & Hv & Hre).
  destruct (find_one _ (update_one _ _ _)) as [e|] eqn:He1; [|discriminate].
  injection Hre as <- <-.
  exists r, e0, verified. split_and!; try done.
  destruct (verify_signature_on_chain _ _ _ _ _); [by injection Hv as -> | discriminate].
Qed.

Lemma draw_winner_Ok env db round_id resp db' :
  draw_winner env db round_id = Ok (resp, db') →
  ∃ r winner,
    get_round db round_id = Ok r ∧
    LotteryRound.is_active r = true ∧
    Winner.wallet_address (DrawResponse.winner resp) = Entry.wallet_address winner ∧
    db' = mkDb (update_one (λ r, LotteryRound.round_id r = round_id)
                  (set_drawn (Entry.wallet_address winner)
                     (now_utc env 0) (now_utc env 1))
                  (lotteryround db))
               (entry db) (next_oid db) ∧
    get_round db' round_id = Ok (DrawResponse.round resp).
Proof.
  unfold draw_winner. intros Hdraw.
  apply bind_Ok in Hdraw as (r & Hr & Hdraw).
  destruct (LotteryRound.is_active r) eqn:Hactive; [|discriminate].
  cbn [negb] in Hdraw.
  destruct (find _ (entry db)) as [|e0 es]; [discriminate|].
  apply bind_Ok in Hdraw as (updated & Hupdated & [= <- <-]).
  exists r, (random_choice (random_draw env) e0 es). split_and!; done.
Qed.

Lemma get_round_same_rounds db db' round_id :
  lotteryround db' = lotteryround db → get_round db' round_id = get_round db round_id.
Proof. unfold get_round. by intros ->. Qed.

(** The two raise sites that follow a write are never reached, so a handler
    that raises has written nothing. *)
Lemma reverify_entry_Raise env db round_id tx_signature exc :
  reverify_entry env db round_id tx_signature = Raise exc →
  exc = RoundNotFound ∨ exc = EntryNotFound.
Proof.
  unfold reverify_entry. rewrite get_round_find_one.
  destruct (find_one _ (lotteryround db)) as [r|]; cbn [bind];
    [|intros [= <-]; by left].
  destruct (find_one _ (entry db)) as [e0|] eqn:He0; [|intros [= <-]; by right].
  destruct (verify_total (post env) (LotteryRound.network r) tx_signature
              (Some (Entry.wallet_address e0))
              (Some (LotteryRound.treasury_address r))) as [v ->].
  cbn [uncaught bind]. rewrite find_one_update_one_same by done.
  apply find_one_Some in He0 as [Hin _].
  destruct (find_one_is_Some (λ e, Entry._id e = Entry._id e0) (entry db) e0 Hin eq_refl)
    as [e ->].
  discriminate.
Qed.

Lemma draw_winner_Raise env db round_id exc :
  draw_winner env db round_id = Raise exc →
  get_round db round_id = Raise exc ∨
  ∃ r, get_round db round_id = Ok r ∧
       (LotteryRound.is_active r = false ∧ exc = RoundAlreadyClosed ∨
        LotteryRound.is_active r = true ∧ exc = NoEligibleEntries).
Proof.
  unfold draw_winner. destruct (get_round db round_id) as [r|exc'] eqn:Hr;
    cbn [bind].
  2: { intros [= ->]. by left. }
  intros Hdraw. right. exists r. split; [done|].
  destruct (LotteryRound.is_active r); cbn [negb] in Hdraw;
    [|injection Hdraw as <-; by left].
  destruct (find _ (entry db)) as [|e0 es]; [injection Hdraw as <-; by right|].
  rewrite get_round_find_one in Hdraw. cbn [lotteryround] in Hdraw.
  rewrite find_one_update_one_same, (get_round_Ok _ _ _ Hr) in Hdraw by done.
  discriminate.
Qed.

(** *** Closed rounds stay closed *)

Lemma closed_find_one db round_id :
  closed db round_id ↔
  ∃ r, find_one (λ r, LotteryRound.round_id r = round_id) (lotteryround db) = Some r ∧
       LotteryRound.is_active r = false.
Proof.
  unfold closed. setoid_rewrite get_round_find_one.
  destruct (find_one _ _) as [r|]; split; intros (r' & Hr & Hc);
    try discriminate; exists r'; split; congruence.
Qed.

Lemma closed_same_rounds db db' round_id :
  lotteryround db' = lotteryround db → closed db round_id → closed db' round_id.
Proof.
  intros Heq (r & Hr & Hc). exists r.
  by rewrite (get_round_same_rounds db db' round_id Heq).
Qed.

Lemma closed_after_draw env db round_id resp db' :
  draw_winner env db round_id = Ok (resp, db') → closed db' round_id.
Proof.
  intros Hdraw.
  apply draw_winner_Ok in Hdraw as (r & winner & Hr & _ & _ & -> & _).
  apply closed_find_one. cbn [lotteryround].
  rewrite find_one_update_one_same by done.
  rewrite (get_round_Ok _ _ _ Hr). eexists. split; reflexivity.
Qed.

Lemma closed_serve env db req round_id :
  closed db round_id → closed (serve env db req) round_id.
Proof.
  intros Hclosed. destruct req as [body | rid body | rid sig | rid]; cbn [serve].
  - destruct (create_round env db body) as [[doc db']|] eqn:Hc; [|done].
    apply create_round_Ok in Hc as [_ ->]. cbn [db_after].
    apply closed_find_one in Hclosed as (r & Hr & Hc).
    apply closed_find_one. exists r. cbn [lotteryround].
    fold (insert_one (lotteryround db) doc).
    by rewrite find_one_insert_one, Hr.
  - destruct (enter_round env db rid body) as [[e db']|] eqn:He; [|done].
    apply enter_round_Ok in He as [_ ->]. by eapply closed_same_rounds.
  - destruct (reverify_entry env db rid sig) as [[e db']|] eqn:He; [|done].
    apply reverify_entry_Ok in He as (r & e0 & v & _ & _ & _ & -> & _).
    by eapply closed_same_rounds.
  - destruct (draw_winner env db rid) as [[resp db']|] eqn:Hd; [|done].
    cbn [db_after]. destruct (decide (rid = round_id)) as [->|Hne].
    + by eapply closed_after_draw.
    + apply draw_winner_Ok in Hd as (r & winner & _ & _ & _ & -> & _).
      apply closed_find_one in Hclosed as (r' & Hr' & Hc).
      apply closed_find_one. exists r'. cbn [lotteryround].
      rewrite find_one_update_one_other; [done|].
      intros x Hx. cbn. split; congruence.
Qed.

Lemma closed_serve_all db reqs round_id :
  closed db round_id → closed (serve_all db reqs) round_id.
Proof.
  revert db. induction reqs as [|[env req] reqs IH]; intros db Hclosed; [done|].
  cbn [serve_all]. by apply IH, closed_serve.
Qed.

Lemma closed_draw_fails env db round_id :
  closed db round_id → draw_winner env db round_id = Raise RoundAlreadyClosed.
Proof.
  intros (r & Hr & Hc). unfold draw_winner. rewrite Hr. cbn [bind].
  by rewrite Hc.
Qed.

(** C2. Once a draw of a round has succeeded, then after any further
    sequence of requests a draw of that round fails with InvalidState, and
    the round is still there with [is_active = false]. *)
Theorem draw_is_final
    (env : Env) (db : Db) (round_id : string) (resp : DrawResponse.t) (db1 : Db)
    (later : list (Env * Request)) (env' : Env) :
  draw_winner env db round_id = Ok (resp, db1) →
  draw_winner env' (serve_all db1 later) round_id = Raise RoundAlreadyClosed ∧
  ∃ r, get_round (serve_all db1 later) round_id = Ok r ∧
       LotteryRound.is_active r = false.
Proof.
  intros Hdraw.
  assert (Hclosed : closed (serve_all db1 later) round_id)
    by eauto using closed_serve_all, closed_after_draw.
  split; [by apply closed_draw_fails | exact Hclosed].
Qed.

Lemma draw_is_final_witness :
  let later :=
    [(env_confirmed, CreateRound round_R1);
     (env_confirmed, EnterRound "R-1" (EnterRequest.mk "W2" "SIG2"));
     (env_not_found, ReverifyEntry "R-1" "SIG1");
     (env_confirmed, CreateRound (CreateRoundRequest.mk "R-2" 5 "TREASURY1" "devnet"));
     (env_confirmed, EnterRound "R-2" (EnterRequest.mk "W1" "SIG3"));
     (env_confirmed, DrawWinner "R-2");
     (env_confirmed, DrawWinner "R-1")] in
  draw_winner env_confirmed (serve_all db_drawn later) "R-1" = Raise RoundAlreadyClosed ∧
  ∃ r, get_round (serve_all db_drawn later) "R-1" = Ok r ∧
       LotteryRound.is_active r = false.
Proof.
  intros later.
  refine (draw_is_final env_confirmed db_entered "R-1" _ db_drawn later env_confirmed _).
  reflexivity.
Defined.

(** *** The round invariant *)

Lemma round_invariant_set_drawn w drawn updated r :
  round_invariant (set_drawn w drawn updated r).
Proof. done. Qed.

Lemma round_invariant_serve env db req :
  Forall round_invariant (lotteryround db) →
  Forall round_invariant (lotteryround (serve env db req)).
Proof.
  intros Hinv. destruct req as [body | rid body | rid sig | rid]; cbn [serve].
  - destruct (create_round env db body) as [[doc db']|] eqn:Hc; [|done].
    apply create_round_Ok in Hc as [-> ->]. cbn [db_after lotteryround].
    apply Forall_app. split; [done|]. by repeat constructor.
  - destruct (enter_round env db rid body) as [[e db']|] eqn:He; [|done].
    by apply enter_round_Ok in He as [_ ->].
  - destruct (reverify_entry env db rid sig) as [[e db']|] eqn:He; [|done].
    by apply reverify_entry_Ok in He as (r & e0 & v & _ & _ & _ & -> & _).
  - destruct (draw_winner env db rid) as [[resp db']|] eqn:Hd; [|done].
    apply draw_winner_Ok in Hd as (r & winner & _ & _ & _ & -> & _).
    cbn [db_after lotteryround].
    apply update_one_Forall; [|done]. intros. apply round_invariant_set_drawn.
Qed.

Lemma rounds_kept_unless_draw env db req :
  (∀ round_id, req ≠ DrawWinner round_id) →
  lotteryround db `prefix_of` lotteryround (serve env db req).
Proof.
  intros Hreq. destruct req as [body | rid body | rid sig | rid]; cbn [serve].
  - destruct (create_round env db body) as [[doc db']|] eqn:Hc; [|done].
    apply create_round_Ok in Hc as [_ ->]. by eexists.
  - destruct (enter_round env db rid body) as [[e db']|] eqn:He; [|done].
    by apply enter_round_Ok in He as [_ ->].
  - destruct (reverify_entry env db rid sig) as [[e db']|] eqn:He; [|done].
    by apply reverify_entry_Ok in He as (r & e0 & v & _ & _ & _ & -> & _).
  - by destruct (Hreq rid).
Qed.

(** C3. Every request preserves the round invariant on all rounds of the
    store. A created round has [winner_address] and [drawn_at] null and
    [is_active] true. A request other than a draw leaves every stored round
    as it was. A successful draw rewrites one round, in a single update that
    sets [winner_address] and [drawn_at] and clears [is_active]. *)
Theorem round_invariant_preserved (env : Env) (db : Db) :
  (∀ req,
     Forall round_invariant (lotteryround db) →
     Forall round_invariant (lotteryround (serve env db req))) ∧
  (∀ body doc db',
     create_round env db body = Ok (doc, db') →
     LotteryRound.winner_address doc = None ∧
     LotteryRound.drawn_at doc = None ∧
     LotteryRound.is_active doc = true ∧
     lotteryround db' = lotteryround db ++ [doc]) ∧
  (∀ req,
     (∀ round_id, req ≠ DrawWinner round_id) →
     lotteryround db `prefix_of` lotteryround (serve env db req)) ∧
  (∀ round_id resp db',
     draw_winner env db round_id = Ok (resp, db') →
     ∃ i r r',
       lotteryround db !! i = Some r ∧
       lotteryround db' = <[i := r']> (lotteryround db) ∧
       LotteryRound.winner_address r' =
         Some (Winner.wallet_address (DrawResponse.winner resp)) ∧
       LotteryRound.drawn_at r' = Some (now_utc env 0) ∧
       LotteryRound.is_active r' = false).
Proof.
  split_and!.
  - intros req. apply round_invariant_serve.
  - intros body doc db' Hc. by apply create_round_Ok in Hc as [-> ->].
  - intros req. apply rounds_kept_unless_draw.
  - intros round_id resp db' Hd.
    apply draw_winner_Ok in Hd as (r & winner & Hr & _ & Hw & -> & _).
    apply get_round_Ok in Hr.
    destruct (update_one_lookup _
                (set_drawn (Entry.wallet_address winner) (now_utc env 0) (now_utc env 1))
                _ _ Hr) as (i & Hi & Hupd & _).
    exists i, r, (set_drawn (Entry.wallet_address winner)
                    (now_utc env 0) (now_utc env 1) r).
    split_and!; [done | done | by rewrite Hw | done | done].
Qed.

Lemma round_invariant_preserved_witness :
  Forall round_invariant (lotteryround db_drawn) ∧
  lotteryround db_entered `prefix_of`
    lotteryround (serve env_not_found db_entered (ReverifyEntry "R-1" "SIG1")).
Proof.
  split.
  - apply (proj1 (round_invariant_preserved env_confirmed db_entered)
             (DrawWinner "R-1")).
    by repeat constructor.
  - apply (proj1 (proj2 (proj2 (round_invariant_preserved env_not_found db_entered)))
             (ReverifyEntry "R-1" "SIG1")).
    discriminate.
Defined.

(** From the empty store, every sequence of requests leads to a store whose
    rounds all satisfy the invariant. *)
Lemma round_invariant_reachable reqs :
  Forall round_invariant (lotteryround (serve_all empty_db reqs)).
Proof.
  assert (Hgen : ∀ db, Forall round_invariant (lotteryround db) →
                       Forall round_invariant (lotteryround (serve_all db reqs))).
  { induction reqs as [|[env req] reqs IH]; intros db Hinv; [done|].
    cbn [serve_all]. by apply IH, round_invariant_serve. }
  apply Hgen. constructor.
Qed.

(** *** Re-verification *)

Lemma find_one_list_find {A} (P : A → Prop) `{!∀ x, Decision (P x)} c x :
  find_one P c = Some x ↔ ∃ i, list_find P c = Some (i, x).
Proof.
  unfold find_one. destruct (list_find P c) as [[i y]|]; cbn; split.
  - intros [= ->]. eauto.
  - by intros (j & [= _ ->]).
  - discriminate.
  - by intros (j & ?).
Qed.

(** Rewriting the first match into another match keeps it the first. *)
Lemma list_find_insert_first {A} (P : A → Prop) `{!∀ x, Decision (P x)} c i x y :
  list_find P c = Some (i, x) → P y → list_find P (<[i := y]> c) = Some (i, y).
Proof.
  intros Hfind Hy. apply list_find_Some in Hfind as (Hi & Hx & Hfirst).
  apply list_find_Some. split_and!; [|done|].
  - apply list_lookup_insert_eq. by eapply lookup_lt_Some.
  - intros j z Hj Hlt. rewrite list_lookup_insert_ne in Hj by lia. eauto.
Qed.

Lemma unique_id_lookup (entries : list Entry.t) i j x y :
  NoDup (Entry._id <$> entries) →
  entries !! i = Some x → entries !! j = Some y →
  Entry._id x = Entry._id y → i = j.
Proof.
  intros Hnodup Hi Hj Heq.
  apply (NoDup_lookup _ i j (Entry._id x) Hnodup).
  - by rewrite list_lookup_fmap, Hi.
  - by rewrite list_lookup_fmap, Hj, Heq.
Qed.

(** With distinct ids, the entry found by round and signature is the one
    its [_id] designates. *)
Lemma list_find_by_id (entries : list Entry.t) i e0 :
  NoDup (Entry._id <$> entries) →
  entries !! i = Some e0 →
  list_find (λ e, Entry._id e = Entry._id e0) entries = Some (i, e0).
Proof.
  intros Hnodup Hi. apply list_find_Some. split_and!; [done | done |].
  intros j y Hj Hlt Heq.
  assert (j = i) by eauto using unique_id_lookup. lia.
Qed.

(** C9. In a store whose entries have distinct ids, a successful
    re-verification rewrites one entry, the first of that round and
    signature, in its [verified] and [updated_at] fields only, and leaves
    the rounds and every other entry as they were; and when the verifier's
    verdicts for that signature are the same the next time, a second
    re-verification succeeds and leaves [verified] as the first one did. *)
Theorem reverify_idempotent
    (env1 env2 : Env) (db : Db) (round_id tx_signature : string)
    (e1 : Entry.t) (db1 : Db) :
  entry_ids_fresh db →
  (∀ network w t,
     verify_signature_on_chain (post env2) network tx_signature w t =
     verify_signature_on_chain (post env1) network tx_signature w t) →
  reverify_entry env1 db round_id tx_signature = Ok (e1, db1) →
  ∃ i e0,
    entry db !! i = Some e0 ∧
    Entry.round_id e0 = round_id ∧
    Entry.tx_signature e0 = tx_signature ∧
    e1 = set_verified (Entry.verified e1) (now_utc env1 0) e0 ∧
    db1 = mkDb (lotteryround db) (<[i := e1]> (entry db)) (next_oid db) ∧
    ∃ e2 db2,
      reverify_entry env2 db1 round_id tx_signature = Ok (e2, db2) ∧
      Entry.verified e2 = Entry.verified e1 ∧
      e2 = set_verified (Entry.verified e1) (now_utc env2 0) e0 ∧
      db2 = mkDb (lotteryround db) (<[i := e2]> (entry db)) (next_oid db).
Proof.
  intros [Hnodup _] Hsame Hre.
  apply reverify_entry_Ok in Hre as (r & e0 & v & Hr & He0 & Hv & -> & He1).
  apply find_one_list_find in He0 as (i & Hfind).
  pose proof Hfind as (Hi & [Hrid Hsig] & _)%list_find_Some.
  pose proof (list_find_by_id _ _ _ Hnodup Hi) as Hid.
  cbn [entry] in He1. unfold update_one in He1 |- *. rewrite Hid in He1 |- *.
  apply find_one_list_find in He1 as (i' & He1).
  rewrite (list_find_insert_first _ _ _ _ (set_verified v (now_utc env1 0) e0)
             Hid eq_refl) in He1.
  injection He1 as _ <-.
  exists i, e0. split_and!; [done..|].
  set (e1 := set_verified v (now_utc env1 0) e0).
  set (e2 := set_verified v (now_utc env2 0) e0).
  exists e2, (mkDb (lotteryround db) (<[i := e2]> (entry db)) (next_oid db)).
  split_and!; [|done..].
  assert (Hr1 : get_round (mkDb (lotteryround db) (<[i := e1]> (entry db)) (next_oid db))
                   round_id = Ok r) by exact Hr.
  unfold reverify_entry. rewrite Hr1. cbn [bind entry].
  assert (Hfind1 : list_find
            (λ e, Entry.round_id e = round_id ∧ Entry.tx_signature e = tx_signature)
            (<[i := e1]> (entry db)) = Some (i, e1))
    by (by apply (list_find_insert_first _ _ _ e0)).
  unfold find_one at 1. rewrite Hfind1. cbn [fmap option_fmap option_map snd].
  change (Entry.wallet_address e1) with (Entry.wallet_address e0).
  cbn [lotteryround]. rewrite Hsame, Hv. cbn [uncaught bind].
  assert (Hid1 : list_find (λ e, Entry._id e = Entry._id e1)
                   (<[i := e1]> (entry db)) = Some (i, e1))
    by (by apply (list_find_insert_first _ _ _ e0)).
  unfold update_one. rewrite Hid1. rewrite list_insert_insert_eq.
  assert (Hid2 : list_find (λ e, Entry._id e = Entry._id e1)
                   (<[i := set_verified v (now_utc env2 0) e1]> (entry db))
                 = Some (i, set_verified v (now_utc env2 0) e1))
    by (by apply (list_find_insert_first _ _ _ e0)).
  unfold find_one. rewrite Hid2. reflexivity.
Qed.

Lemma reverify_idempotent_witness :
  ∃ e2 db2,
    reverify_entry env_confirmed
      (serve env_confirmed db_entered (ReverifyEntry "R-1" "SIG1")) "R-1" "SIG1"
      = Ok (e2, db2) ∧
    Entry.verified e2 = true.
Proof.
  destruct (reverify_idempotent env_confirmed env_confirmed db_entered "R-1" "SIG1"
              (Entry.mk 1 "R-1" "W1" "SIG1" true (clock 0) (clock 0))
              (serve env_confirmed db_entered (ReverifyEntry "R-1" "SIG1")))
    as (i & e0 & _ & _ & _ & _ & _ & e2 & db2 & Hre & Hv & _).
  - split; [apply NoDup_singleton | repeat constructor].
  - reflexivity.
  - reflexivity.
  - exists e2, db2. split; [exact Hre | exact Hv].
Defined.

(** *** Entry ids stay distinct *)

Lemma update_one_fmap {A B} (P : A → Prop) `{!∀ x, Decision (P x)}
    (f : A → B) set c :
  (∀ x, f (set x) = f x) → f <$> update_one P set c = f <$> c.
Proof.
  intros Hset. induction c as [|y c IH]; [reflexivity|].
  rewrite update_one_cons. case_decide; cbn [fmap list_fmap].
  - by rewrite Hset.
  - by rewrite <- IH.
Qed.

Lemma entry_ids_fresh_serve env db req :
  entry_ids_fresh db → entry_ids_fresh (serve env db req).
Proof.
  intros [Hnodup Hbound].
  destruct req as [body | rid body | rid sig | rid]; cbn [serve].
  - destruct (create_round env db body) as [[doc db']|] eqn:Hc; [|done].
    apply create_round_Ok in Hc as [_ ->]. split; [done|]. cbn.
    eapply Forall_impl; [exact Hbound|]. cbn. lia.
  - destruct (enter_round env db rid body) as [[e db']|] eqn:He; [|done].
    apply enter_round_Ok in He as [Hid ->]. split; cbn [db_after entry next_oid].
    + rewrite fmap_app. apply NoDup_app. split_and!; [done | | apply NoDup_singleton].
      intros x Hx Hx'. apply list_elem_of_fmap in Hx as (y & -> & Hy).
      apply list_elem_of_singleton in Hx'. rewrite Hid in Hx'.
      rewrite Forall_forall in Hbound. specialize (Hbound y Hy). cbn in Hbound. lia.
    + apply Forall_app. split.
      * eapply Forall_impl; [exact Hbound|]. cbn. lia.
      * apply Forall_singleton. rewrite Hid. lia.
  - destruct (reverify_entry env db rid sig) as [[e db']|] eqn:He; [|done].
    apply reverify_entry_Ok in He as (r & e0 & v & _ & _ & _ & -> & _).
    split; cbn [db_after entry next_oid].
    + by rewrite update_one_fmap.
    + by apply update_one_Forall.
  - destruct (draw_winner env db rid) as [[resp db']|] eqn:Hd; [|done].
    by apply draw_winner_Ok in Hd as (r & winner & _ & _ & _ & -> & _).
Qed.

(** From the empty store, every sequence of requests leads to a store whose
    entries have distinct ids. *)
Lemma entry_ids_fresh_reachable reqs : entry_ids_fresh (serve_all empty_db reqs).
Proof.
  assert (Hgen : ∀ db, entry_ids_fresh db → entry_ids_fresh (serve_all db reqs)).
  { induction reqs as [|[env req] reqs IH]; intros db Hfresh; [done|].
    cbn [serve_all]. by apply IH, entry_ids_fresh_serve. }
  apply Hgen. split; constructor.
Qed.

(** ** Concurrent submissions *)

(** The steps, run without interruption, are [enter_round], with or without
    a unique index. *)
Lemma enter_round_alone_spec unique_index env round_id body db :
  enter_round_alone unique_index env round_id body db =
  match enter_round env db round_id body with
  | Ok (e, db') => (Responded (Ok e), db')
  | Raise exc => (Responded (Raise exc), db)
  end.
Proof.
  unfold enter_round_alone, enter_round, Nat.iter.
  cbn [nat_rect enter_round_step fst snd].
  destruct (get_round db round_id) as [r|exc]; cbn [bind]; [|reflexivity].
  destruct (negb (LotteryRound.is_active r)); [reflexivity|].
  cbn [enter_round_step fst snd].
  destruct (find_one _ (entry db)) as [dup|] eqn:Hdup; [reflexivity|].
  cbn [enter_round_step fst snd].
  destruct (uncaught _) as [verified|exc]; cbn [bind]; [|reflexivity].
  cbn [enter_round_step fst snd]. rewrite Hdup.
  rewrite bool_decide_eq_false_2 by (by intros [? ?]).
  rewrite andb_false_r. reflexivity.
Qed.

(** C8, on the code. Two submissions of one fresh signature to open
    rounds, interleaved so that both pass the duplicate check before either
    inserts: the first is stored and answered with its entry; the second
    is stored as well and answered with its entry when the collection has
    no unique index, and is answered with a 500 when it has one. Neither
    way is the second answer Conflict. *)
Theorem concurrent_submissions_race
    (unique_index : bool) (env1 env2 : Env) (db : Db)
    (round_id1 round_id2 : string) (body1 body2 : EnterRequest.t)
    (r1 r2 : LotteryRound.t) :
  get_round db round_id1 = Ok r1 → LotteryRound.is_active r1 = true →
  get_round db round_id2 = Ok r2 → LotteryRound.is_active r2 = true →
  EnterRequest.tx_signature body2 = EnterRequest.tx_signature body1 →
  (∀ e, e ∈ entry db → Entry.tx_signature e ≠ EnterRequest.tx_signature body1) →
  let final :=
    race unique_index (env1, round_id1, body1) (env2, round_id2, body2) interleaved
         (Race.mk AtGetRound AtGetRound db) in
  ∃ e1,
    Race.first final = Responded (Ok e1) ∧
    Entry.tx_signature e1 = EnterRequest.tx_signature body1 ∧
    Race.second final ≠ Responded (Raise SignatureConflict) ∧
    if unique_index then
      Race.second final = Responded (Raise InternalServerError) ∧
      entry (Race.store final) = entry db ++ [e1]
    else
      ∃ e2,
        Race.second final = Responded (Ok e2) ∧
        Entry.tx_signature e2 = EnterRequest.tx_signature body1 ∧
        entry (Race.store final) = entry db ++ [e1; e2].
Proof.
  intros Hr1 Hactive1 Hr2 Hactive2 Hsig Hfresh final.
  assert (Hnone : ∀ body, EnterRequest.tx_signature body = EnterRequest.tx_signature body1 →
                  find_one (λ e, Entry.tx_signature e = EnterRequest.tx_signature body)
                           (entry db) = None).
  { intros body Hbody. apply find_one_None. intros e He. rewrite Hbody. by apply Hfresh. }
  destruct (verify_total (post env1) (LotteryRound.network r1)
              (EnterRequest.tx_signature body1)
              (Some (EnterRequest.wallet_address body1))
              (Some (LotteryRound.treasury_address r1))) as [v1 Hv1].
  destruct (verify_total (post env2) (LotteryRound.network r2)
              (EnterRequest.tx_signature body2)
              (Some (EnterRequest.wallet_address body2))
              (Some (LotteryRound.treasury_address r2))) as [v2 Hv2].
  subst final. unfold interleaved.
  cbn [race race_step enter_round_step fst snd Race.first Race.second Race.store].
  rewrite Hr1, Hactive1. cbn [negb race race_step enter_round_step fst snd
                              Race.first Race.second Race.store].
  rewrite Hr2, Hactive2. cbn [negb race race_step enter_round_step fst snd
                              Race.first Race.second Race.store].
  rewrite (Hnone body1 eq_refl). cbn [race race_step enter_round_step fst snd
                              Race.first Race.second Race.store].
  rewrite (Hnone body2 Hsig). cbn [race race_step enter_round_step fst snd
                              Race.first Race.second Race.store].
  rewrite Hv1. cbn [uncaught race race_step enter_round_step fst snd
                    Race.first Race.second Race.store].
  rewrite Hv2. cbn [uncaught race race_step enter_round_step fst snd
                    Race.first Race.second Race.store].
  rewrite (Hnone body1 eq_refl).
  rewrite (bool_decide_eq_false_2 (is_Some None)) by (by intros [? ?]).
  rewrite andb_false_r.
  cbn [race race_step enter_round_step fst snd Race.first Race.second Race.store
       entry next_oid lotteryround].
  rewrite find_one_insert_one, (Hnone body2 Hsig).
  rewrite decide_True by (by rewrite Hsig).
  rewrite (bool_decide_eq_true_2 (is_Some (Some _))) by eauto.
  rewrite andb_true_r.
  eexists. destruct unique_index;
    cbn [race Race.first Race.second Race.store entry insert_one].
  - split_and!; [reflexivity | reflexivity | discriminate | reflexivity | reflexivity].
  - split_and!; [reflexivity | reflexivity | discriminate |].
    eexists. split_and!; [reflexivity | exact Hsig |].
    unfold insert_one. by rewrite <- app_assoc.
Qed.

(** Two wallets submit signature [SIG1] to round [R-1] at once; without a
    unique index both are answered with an entry and both entries are
    stored. *)
Lemma concurrent_submissions_race_witness :
  let db := serve env_confirmed empty_db (CreateRound round_R1) in
  let final :=
    race false (env_confirmed, "R-1", entry_W1)
         (env_not_found, "R-1", EnterRequest.mk "W2" "SIG1") interleaved
         (Race.mk AtGetRound AtGetRound db) in
  Race.first final =
    Responded (Ok (Entry.mk 1 "R-1" "W1" "SIG1" true (clock 0) (clock 1))) ∧
  Race.second final =
    Responded (Ok (Entry.mk 2 "R-1" "W2" "SIG1" false (clock 0) (clock 1))) ∧
  entry (Race.store final) =
    [Entry.mk 1 "R-1" "W1" "SIG1" true (clock 0) (clock 1);
     Entry.mk 2 "R-1" "W2" "SIG1" false (clock 0) (clock 1)].
Proof.
  intros db final.
  destruct (concurrent_submissions_race false env_confirmed env_not_found db
              "R-1" "R-1" entry_W1 (EnterRequest.mk "W2" "SIG1")
              (LotteryRound.mk 0 "R-1" true 1000000 "TREASURY1" "devnet" None None
                 (clock 0) (clock 1))
              (LotteryRound.mk 0 "R-1" true 1000000 "TREASURY1" "devnet" None None
                 (clock 0) (clock 1)))
    as (e1 & Hfirst & _ & _ & e2 & Hsecond & _ & Hstore);
    [reflexivity | reflexivity | reflexivity | reflexivity | reflexivity
    | intros e He; inversion He |].
  split_and!; reflexivity.
Defined.

(** * Further properties *)

(** ** Ledger verifier *)

Lemma endpoint_of_unknown network :
  ¬ known_network network → endpoint_of network = endpoint_of "devnet".
Proof.
  intros Hunknown. unfold endpoint_of, NETWORK_ENDPOINTS. cbn [endpoint_lookup].
  destruct (String.eqb_spec network "devnet") as [->|_];
    [destruct Hunknown; by left|].
  destruct (String.eqb_spec network "testnet") as [->|_];
    [destruct Hunknown; right; by left|].
  destruct (String.eqb_spec network "mainnet-beta") as [->|_];
    [destruct Hunknown; right; by right|].
  reflexivity.
Qed.

(** X1. A network name outside the endpoint table is not refused: the
    signature is looked up on devnet, and the verdict is the one devnet
    gives. *)
Theorem verifier_unknown_network_is_devnet
    (post : Ledger) (network tx_signature : string)
    (expected_wallet expected_treasury : option string) :
  ¬ known_network network →
  verify_signature_on_chain post network tx_signature
    expected_wallet expected_treasury =
  verify_signature_on_chain post "devnet" tx_signature
    expected_wallet expected_treasury.
Proof.
  intros Hunknown. rewrite !verify_unfold. by rewrite (endpoint_of_unknown network).
Qed.

Lemma verifier_unknown_network_is_devnet_witness :
  let post : Ledger := λ endpoint _,
    if String.eqb endpoint "https://api.devnet.solana.com"
    then Ok (mkResponse (Some (transaction_reply None (JList []))))
    else Raise RequestsConnectionError in
  verify_signature_on_chain post "mainnet" "SIG1" None None = Ok true.
Proof.
  intros post.
  rewrite (verifier_unknown_network_is_devnet post "mainnet" "SIG1" None None).
  - reflexivity.
  - intros [H|[H|H]]; discriminate H.
Defined.

Lemma py_in_list_iff x l : py_in x (JList l) = Ok true ↔ JStr x ∈ l.
Proof.
  split; [apply py_in_list|].
  intros Hin. cbn. f_equal. apply existsb_exists. exists (JStr x).
  split; [by apply list_elem_of_In | apply String.eqb_refl].
Qed.

Lemma supplied_and_missing_list expected keys :
  ∃ missing,
    supplied_and_missing expected (JList keys) = Ok missing ∧
    (missing = false ↔ passes expected keys).
Proof.
  destruct expected as [a|]; cbn [supplied_and_missing passes]; [|by exists false].
  destruct (String.eqb_spec a "") as [->|Ha].
  - exists false. split; [done|]. split; [by left | done].
  - destruct (existsb (str_eq_json a) keys) eqn:Hex.
    + exists false. cbn. rewrite Hex. split; [done|]. split; [|done].
      intros _. right. apply py_in_list. cbn. by rewrite Hex.
    + exists true. cbn. rewrite Hex. split; [done|]. split; [done|].
      intros [Hempty|Hin]; [done|].
      apply py_in_list_iff in Hin. cbn in Hin. congruence.
Qed.

(** X2. For a found transaction that reports no error and whose account keys
    are a list, the verdict is [True] exactly when each expected address
    is absent, empty, or one of the keys; the two addresses are checked
    independently of each other. *)
Theorem verifier_verdict_on_found_transaction
    (post : Ledger) (network tx_signature : string)
    (expected_wallet expected_treasury : option string)
    (d fields : list (string * json)) (keys : list json) :
  post (endpoint_of network) tx_signature = Ok (mkResponse (Some (JDict d))) →
  dict_lookup "result" d = Some (JDict fields) →
  reports_error (default JNull (dict_lookup "meta" fields)) = Ok false →
  fetched_account_keys (JDict fields) = Ok (JList keys) →
  verify_signature_on_chain post network tx_signature
    expected_wallet expected_treasury = Ok true ↔
  passes expected_wallet keys ∧ passes expected_treasury keys.
Proof.
  intros Hpost Hd Hmeta Hkeys. rewrite verify_unfold.
  unfold verify_try_block. rewrite Hpost.
  cbn [bind Response_json body]. rewrite (dict_lookup_in _ _ _ Hd).
  cbn [bind negb py_getitem]. rewrite Hd. cbn [bind is_None py_get].
  rewrite Hmeta. cbn [bind]. unfold account_presence_checks. rewrite Hkeys.
  cbn [bind].
  destruct (supplied_and_missing_list expected_wallet keys) as (wm & -> & Hwm).
  destruct (supplied_and_missing_list expected_treasury keys) as (tm & Htm' & Htm).
  cbn [bind]. destruct wm.
  - cbn [try_except]. split; [discriminate|]. intros [Hw _].
    apply Hwm in Hw. discriminate.
  - rewrite Htm'. cbn [bind]. destruct tm; cbn [try_except].
    + split; [discriminate|]. intros [_ Ht]. apply Htm in Ht. discriminate.
    + split; [|done]. intros _. split; [by apply Hwm | by apply Htm].
Qed.

(** With only the treasury expected, the wallet is not looked at; with the
    wallet expected as well and missing from the keys, the verdict is
    [False]. *)
Lemma verifier_verdict_on_found_transaction_witness :
  let post := replies (transaction_reply (Some (JDict [("err", JNull)]))
                         (JList [JStr "TREASURY1"])) in
  verify_signature_on_chain post "devnet" "SIG1" None (Some "TREASURY1") = Ok true ∧
  verify_signature_on_chain post "devnet" "SIG1" (Some "W1") (Some "TREASURY1")
    ≠ Ok true.
Proof.
  intros post. split.
  - apply (verifier_verdict_on_found_transaction post "devnet" "SIG1"
             None (Some "TREASURY1") _ _ [JStr "TREASURY1"]
             eq_refl eq_refl eq_refl eq_refl).
    split; [exact I | right; left].
  - intros Hv.
    apply (verifier_verdict_on_found_transaction post "devnet" "SIG1"
             (Some "W1") (Some "TREASURY1") _ _ [JStr "TREASURY1"]
             eq_refl eq_refl eq_refl eq_refl) in Hv as [[Hw|Hw] _].
    + discriminate Hw.
    + apply list_elem_of_In in Hw. destruct Hw as [[=]|[]].
Defined.

(** X3. A reply whose body is JSON but not an object, or whose [result] is
    not an object, is never accepted: whatever else it holds, the verdict
    is [False]. *)
Theorem verifier_rejects_malformed_reply
    (post : Ledger) (network tx_signature : string)
    (expected_wallet expected_treasury : option string) (data : json) :
  post (endpoint_of network) tx_signature = Ok (mkResponse (Some data)) →
  (∀ d, data = JDict d →
        ∃ result, dict_lookup "result" d = Some result ∧
                  ∀ fields, result ≠ JDict fields) →
  verify_signature_on_chain post network tx_signature
    expected_wallet expected_treasury = Ok false.
Proof.
  intros Hpost Hshape. rewrite verify_unfold. f_equal.
  unfold verify_try_block. rewrite Hpost. cbn [bind Response_json body].
  destruct data as [| b | q | s | l | d]; try reflexivity.
  - cbn [py_in bind]. by destruct (str_contains "result" s).
  - cbn [py_in bind]. by destruct (existsb _ l).
  - destruct (Hshape d eq_refl) as (result & Hd & Hresult).
    rewrite (dict_lookup_in _ _ _ Hd). cbn [bind negb py_getitem]. rewrite Hd.
    cbn [bind]. destruct result as [| b | q | s | l | fields]; try reflexivity.
    by destruct (Hresult fields).
Qed.

Lemma verifier_rejects_malformed_reply_witness :
  verify_signature_on_chain (replies (JList [JStr "result"])) "devnet" "SIG1" None None
    = Ok false ∧
  verify_signature_on_chain (replies (JDict [("result", JBool true)]))
    "devnet" "SIG1" None None = Ok false.
Proof.
  split.
  - apply (verifier_rejects_malformed_reply _ "devnet" "SIG1" None None
             (JList [JStr "result"]) eq_refl).
    intros d Hd. discriminate Hd.
  - apply (verifier_rejects_malformed_reply _ "devnet" "SIG1" None None
             (JDict [("result", JBool true)]) eq_refl).
    intros d [= <-]. exists (JBool true). split; [reflexivity|].
    intros fields Hf. discriminate Hf.
Defined.

(** ** Looking rounds up *)

Lemma serve_all_invariant (I : Db → Prop) :
  I empty_db →
  (∀ env db req, I db → I (serve env db req)) →
  ∀ reqs, I (serve_all empty_db reqs).
Proof.
  intros Hempty Hstep reqs.
  assert (Hgen : ∀ db, I db → I (serve_all db reqs)).
  { induction reqs as [|[env req] reqs IH]; intros db HI; [done|].
    cbn [serve_all]. by apply IH, Hstep. }
  by apply Hgen.
Qed.

(** X4. [get_round], and the detail route with it, returns a stored round
    of the requested id; its only failure is NotFound, raised exactly when
    no stored round has that id. *)
Theorem get_round_by_id (db : Db) (round_id : string) :
  (∀ r, get_round_detail db round_id = Ok r →
        r ∈ lotteryround db ∧ LotteryRound.round_id r = round_id) ∧
  (∀ exc, get_round_detail db round_id = Raise exc →
          exc = RoundNotFound ∧
          ∀ r, r ∈ lotteryround db → LotteryRound.round_id r ≠ round_id) ∧
  (∀ r, r ∈ lotteryround db → LotteryRound.round_id r = round_id →
        ∃ r', get_round_detail db round_id = Ok r').
Proof.
  unfold get_round_detail. rewrite get_round_find_one. split_and!.
  - intros r. destruct (find_one _ _) as [r'|] eqn:Hf; [|discriminate].
    intros [= <-]. by apply find_one_Some in Hf.
  - intros exc. destruct (find_one _ _) as [r'|] eqn:Hf; [discriminate|].
    intros [= <-]. split; [done|]. exact (proj1 (find_one_None _ _) Hf).
  - intros r Hr Hid.
    destruct (find_one_is_Some (λ r, LotteryRound.round_id r = round_id)
                (lotteryround db) r Hr Hid) as [r' ->].
    eauto.
Qed.

Lemma get_round_by_id_witness :
  (∃ r', get_round_detail db_drawn "R-1" = Ok r') ∧
  ∀ r, r ∈ lotteryround db_drawn → LotteryRound.round_id r ≠ "R-2".
Proof.
  split.
  - apply (proj2 (proj2 (get_round_by_id db_drawn "R-1"))
             (LotteryRound.mk 0 "R-1" false 1000000 "TREASURY1" "devnet"
                (Some "W1") (Some (clock 0)) (clock 0) (clock 1)));
      [apply list_elem_of_In; by left | reflexivity].
  - apply (proj1 (proj2 (get_round_by_id db_drawn "R-2")) RoundNotFound).
    reflexivity.
Defined.

(** ** Creating rounds *)

(** X5. Creating a round whose id is taken, by an open round or a closed one,
    fails with Conflict and writes nothing. *)
Theorem create_round_conflict
    (env : Env) (db : Db) (body : CreateRoundRequest.t) (r : LotteryRound.t) :
  r ∈ lotteryround db →
  LotteryRound.round_id r = CreateRoundRequest.round_id body →
  create_round env db body = Raise RoundIdConflict ∧
  serve env db (CreateRound body) = db.
Proof.
  intros Hr Hid.
  assert (Hc : create_round env db body = Raise RoundIdConflict).
  { unfold create_round.
    destruct (find_one_is_Some
                (λ r, LotteryRound.round_id r = CreateRoundRequest.round_id body)
                (lotteryround db) r Hr Hid) as [r' ->].
    reflexivity. }
  split; [exact Hc|]. cbn [serve]. by rewrite Hc.
Qed.

Lemma create_round_conflict_witness :
  let body := CreateRoundRequest.mk "R-1" 0 "TREASURY9" "testnet" in
  create_round env_not_found db_drawn body = Raise RoundIdConflict ∧
  serve env_not_found db_drawn (CreateRound body) = db_drawn.
Proof.
  intros body.
  apply (create_round_conflict env_not_found db_drawn body
           (LotteryRound.mk 0 "R-1" false 1000000 "TREASURY1" "devnet"
              (Some "W1") (Some (clock 0)) (clock 0) (clock 1)));
    [apply list_elem_of_In; by left | reflexivity].
Defined.



(** ** Listing *)

Global Instance not_older_total : Total not_older.
Proof. intros a b. unfold not_older. lia. Qed.

Global Instance not_older_trans : Transitive not_older.
Proof. intros a b c. unfold not_older. lia. Qed.


Lemma enter_round_inv env db round_id body e db' :
  enter_round env db round_id body = Ok (e, db') →
  ∃ r verified,
    get_round db round_id = Ok r ∧
    LotteryRound.is_active r = true ∧
    find_one (λ e, Entry.tx_signature e = EnterRequest.tx_signature body)
             (entry db) = None ∧
    verify_signature_on_chain (post env) (LotteryRound.network r)
      (EnterRequest.tx_signature body)
      (Some (EnterRequest.wallet_address body))
      (Some (LotteryRound.treasury_address r)) = Ok verified ∧
    e = Entry.mk (next_oid db) round_id (EnterRequest.wallet_address body)
          (EnterRequest.tx_signature body) verified (now_utc env 0) (now_utc env 1) ∧
    db' = mkDb (lotteryround db) (entry db ++ [e]) (S (next_oid db)).
Proof.
  unfold enter_round. intros Henter.
  apply bind_Ok in Henter as (r & Hr & Henter).
  destruct (LotteryRound.is_active r) eqn:Hactive; [|discriminate].
  cbn [negb] in Henter.
  destruct (find_one _ _) eqn:Hdup; [discriminate|].
  apply bind_Ok in Henter as (verified & Hv & [= <- <-]).
  exists r, verified. split_and!; try done.
  destruct (verify_signature_on_chain _ _ _ _ _); [by injection Hv as -> | discriminate].
Qed.

(** X8. The entries route fails with NotFound exactly when the round is not
    stored; otherwise it returns the stored entries of that round, all of
    them and no others, in the order they were stored. *)
Theorem get_round_entries_of_round (db : Db) (round_id : string) :
  ((∀ r, r ∈ lotteryround db → LotteryRound.round_id r ≠ round_id) →
   get_round_entries db round_id = Raise RoundNotFound) ∧
  (∀ r, r ∈ lotteryround db → LotteryRound.round_id r = round_id →
        ∃ es, get_round_entries db round_id = Ok es ∧
              (∀ e, e ∈ es ↔ e ∈ entry db ∧ Entry.round_id e = round_id) ∧
              es `sublist_of` entry db).
Proof.
  unfold get_round_entries. rewrite get_round_find_one. split.
  - intros Hnone.
    by rewrite (proj2 (find_one_None (λ r, LotteryRound.round_id r = round_id)
                         (lotteryround db)) Hnone).
  - intros r Hr Hid.
    destruct (find_one_is_Some (λ r, LotteryRound.round_id r = round_id)
                (lotteryround db) r Hr Hid) as [r' ->].
    cbn [bind]. eexists. split_and!; [reflexivity | |].
    + intros e. unfold list_entries, find. rewrite list_elem_of_filter. tauto.
    + apply sublist_filter.
Qed.

Lemma get_round_entries_of_round_witness :
  get_round_entries db_entered "R-9" = Raise RoundNotFound ∧
  ∃ es, get_round_entries db_entered "R-1" = Ok es ∧
        (∀ e, e ∈ es ↔ e ∈ entry db_entered ∧ Entry.round_id e = "R-1") ∧
        es `sublist_of` entry db_entered.
Proof.
  split.
  - apply (proj1 (get_round_entries_of_round db_entered "R-9")).
    intros r Hr. apply list_elem_of_In in Hr. destruct Hr as [<-|[]]. discriminate.
  - apply (proj2 (get_round_entries_of_round db_entered "R-1")
             (LotteryRound.mk 0 "R-1" true 1000000 "TREASURY1" "devnet" None None
                (clock 0) (clock 1)));
      [apply list_elem_of_In; by left | reflexivity].
Defined.

(** X9. A stored submission shows up at the end of its round's entries, and the
    entries of every other round are as before. *)
Theorem enter_round_then_entries
    (env : Env) (db : Db) (round_id : string) (body : EnterRequest.t)
    (e : Entry.t) (db' : Db) :
  enter_round env db round_id body = Ok (e, db') →
  get_round_entries db' round_id = Ok (list_entries db round_id ++ [e]) ∧
  ∀ other, other ≠ round_id → list_entries db' other = list_entries db other.
Proof.
  intros Henter.
  apply enter_round_inv in Henter as (r & v & Hr & _ & _ & _ & -> & ->).
  split.
  - unfold get_round_entries. unfold get_round in Hr |- *.
    cbn [lotteryround]. rewrite Hr. cbn [bind].
    unfold list_entries, find. cbn [entry Entry.round_id].
    rewrite filter_app, filter_cons, decide_True by done. reflexivity.
  - intros other Hother. unfold list_entries, find. cbn [entry].
    rewrite filter_app, filter_cons, decide_False by (cbn; congruence).
    by rewrite filter_nil, app_nil_r.
Qed.

Lemma enter_round_then_entries_witness :
  let e2 := Entry.mk 2 "R-1" "W2" "SIG2" false (clock 0) (clock 1) in
  get_round_entries (serve env_not_found db_entered
                       (EnterRound "R-1" (EnterRequest.mk "W2" "SIG2"))) "R-1"
    = Ok (list_entries db_entered "R-1" ++ [e2]).
Proof.
  intros e2.
  refine (proj1 (enter_round_then_entries env_not_found db_entered "R-1"
                   (EnterRequest.mk "W2" "SIG2") e2 _ _)).
  reflexivity.
Defined.

(** ** What the store keeps, when requests are served one after another *)

Lemma create_round_inv env db body doc db' :
  create_round env db body = Ok (doc, db') →
  (∀ r, r ∈ lotteryround db →
        LotteryRound.round_id r ≠ CreateRoundRequest.round_id body) ∧
  doc = LotteryRound.mk (next_oid db) (CreateRoundRequest.round_id body) true
          (CreateRoundRequest.entry_fee_lamports body)
          (CreateRoundRequest.treasury_address body)
          (CreateRoundRequest.network body) None None
          (now_utc env 0) (now_utc env 1) ∧
  db' = mkDb (lotteryround db ++ [doc]) (entry db) (S (next_oid db)).
Proof.
  intros Hc. pose proof (create_round_Ok _ _ _ _ _ Hc) as [-> ->].
  split; [|done]. unfold create_round in Hc.
  destruct (find_one _ _) eqn:Hf; [discriminate|].
  exact (proj1 (find_one_None _ _) Hf).
Qed.

Lemma draw_winner_inv env db round_id resp db' :
  draw_winner env db round_id = Ok (resp, db') →
  ∃ r winner,
    get_round db round_id = Ok r ∧
    LotteryRound.is_active r = true ∧
    winner ∈ entry db ∧
    Entry.round_id winner = round_id ∧
    Entry.verified winner = true ∧
    resp = DrawResponse.mk
             (set_drawn (Entry.wallet_address winner) (now_utc env 0) (now_utc env 1) r)
             (Winner.mk (Entry.wallet_address winner) (Entry.tx_signature winner)) ∧
    db' = mkDb (update_one (λ r, LotteryRound.round_id r = round_id)
                  (set_drawn (Entry.wallet_address winner)
                     (now_utc env 0) (now_utc env 1))
                  (lotteryround db))
               (entry db) (next_oid db).
Proof.
  unfold draw_winner. intros Hdraw.
  apply bind_Ok in Hdraw as (r & Hr & Hdraw).
  destruct (LotteryRound.is_active r) eqn:Hactive; [|discriminate].
  cbn [negb] in Hdraw.
  destruct (find _ (entry db)) as [|e0 es] eqn:Hfind; [discriminate|].
  apply bind_Ok in Hdraw as (updated & Hupdated & [= <- <-]).
  pose proof (random_choice_elem (random_draw env) e0 es) as Hin.
  rewrite <- Hfind in Hin. unfold find in Hin.
  apply list_elem_of_filter in Hin as [[Hrid Hver] Hin].
  exists r, (random_choice (random_draw env) e0 es). split_and!; try done.
  rewrite get_round_find_one in Hupdated. cbn [lotteryround] in Hupdated.
  rewrite find_one_update_one_same, (get_round_Ok _ _ _ Hr) in Hupdated by done.
  by injection Hupdated as <-.
Qed.

Lemma update_one_elem {A} (P : A → Prop) `{!∀ x, Decision (P x)} set c x :
  x ∈ update_one P set c → x ∈ c ∨ ∃ y, y ∈ c ∧ P y ∧ x = set y.
Proof.
  induction c as [|y c IH]; [by left|].
  rewrite update_one_cons. case_decide as Hy.
  - intros [->|Hx]%elem_of_cons.
    + right. exists y. split_and!; [left | done | done].
    + left. by right.
  - intros [->|Hx]%elem_of_cons; [left; left|].
    destruct (IH Hx) as [Hin|(z & Hz & HP & ->)].
    + left. by right.
    + right. exists z. split_and!; [by right | done | done].
Qed.

Lemma elem_of_same_fmap {A B} (f : A → B) (c c' : list A) x :
  f <$> c' = f <$> c → x ∈ c → ∃ x', x' ∈ c' ∧ f x' = f x.
Proof.
  intros Heq Hx. assert (Hfx : f x ∈ f <$> c') by (rewrite Heq; by apply list_elem_of_fmap_2).
  apply list_elem_of_fmap in Hfx as (x' & Hfx & Hx'). eauto.
Qed.

Lemma round_ids_unique_serve env db req :
  round_ids_unique db → round_ids_unique (serve env db req).
Proof.
  unfold round_ids_unique. intros Hnodup.
  destruct req as [body | rid body | rid sig | rid]; cbn [serve].
  - destruct (create_round env db body) as [[doc db']|] eqn:Hc; [|done].
    apply create_round_inv in Hc as (Hfresh & -> & ->). cbn [db_after lotteryround].
    rewrite fmap_app. apply NoDup_app. split_and!; [done | | apply NoDup_singleton].
    intros x Hx Hx'. apply list_elem_of_fmap in Hx as (r & -> & Hr).
    apply list_elem_of_singleton in Hx'. by apply (Hfresh r Hr).
  - destruct (enter_round env db rid body) as [[e db']|] eqn:He; [|done].
    by apply enter_round_Ok in He as [_ ->].
  - destruct (reverify_entry env db rid sig) as [[e db']|] eqn:He; [|done].
    by apply reverify_entry_Ok in He as (r & e0 & v & _ & _ & _ & -> & _).
  - destruct (draw_winner env db rid) as [[resp db']|] eqn:Hd; [|done].
    apply draw_winner_Ok in Hd as (r & winner & _ & _ & _ & -> & _).
    cbn [db_after lotteryround]. by rewrite update_one_fmap.
Qed.

(** X10. From the empty store, no sequence of requests leads to two rounds with
    the same [round_id]. *)
Theorem round_ids_unique_reachable (reqs : list (Env * Request)) :
  round_ids_unique (serve_all empty_db reqs).
Proof.
  apply serve_all_invariant; [constructor | apply round_ids_unique_serve].
Qed.

Lemma signatures_unique_serve env db req :
  signatures_unique db → signatures_unique (serve env db req).
Proof.
  unfold signatures_unique. intros Hnodup.
  destruct req as [body | rid body | rid sig | rid]; cbn [serve].
  - destruct (create_round env db body) as [[doc db']|] eqn:Hc; [|done].
    by apply create_round_Ok in Hc as [_ ->].
  - destruct (enter_round env db rid body) as [[e db']|] eqn:He; [|done].
    apply enter_round_inv in He as (r & v & _ & _ & Hfresh & _ & -> & ->).
    cbn [db_after entry]. rewrite fmap_app.
    apply NoDup_app. split_and!; [done | | apply NoDup_singleton].
    intros x Hx Hx'. apply list_elem_of_fmap in Hx as (e & -> & He).
    apply list_elem_of_singleton in Hx'.
    by apply (proj1 (find_one_None _ _) Hfresh e He).
  - destruct (reverify_entry env db rid sig) as [[e db']|] eqn:He; [|done].
    apply reverify_entry_Ok in He as (r & e0 & v & _ & _ & _ & -> & _).
    cbn [db_after entry]. by rewrite update_one_fmap.
  - destruct (draw_winner env db rid) as [[resp db']|] eqn:Hd; [|done].
    by apply draw_winner_Ok in Hd as (r & winner & _ & _ & _ & -> & _).
Qed.

(** X11. From the empty store, no sequence of requests served one after another
    leads to two entries with the same [tx_signature], in one round or
    across rounds. *)
Theorem signatures_unique_reachable (reqs : list (Env * Request)) :
  signatures_unique (serve_all empty_db reqs).
Proof.
  apply serve_all_invariant; [constructor | apply signatures_unique_serve].
Qed.

Lemma entries_reference_rounds_serve env db req :
  entries_reference_rounds db → entries_reference_rounds (serve env db req).
Proof.
  unfold entries_reference_rounds. intros Href.
  destruct req as [body | rid body | rid sig | rid]; cbn [serve].
  - destruct (create_round env db body) as [[doc db']|] eqn:Hc; [|done].
    apply create_round_Ok in Hc as [_ ->]. cbn [db_after lotteryround entry].
    intros e He. destruct (Href e He) as (r & Hr & Hid).
    exists r. split; [|done]. apply elem_of_app. by left.
  - destruct (enter_round env db rid body) as [[e db']|] eqn:He; [|done].
    apply enter_round_inv in He as (r & v & Hr & _ & _ & _ & -> & ->).
    cbn [db_after lotteryround entry].
    intros e' [He'| ->%list_elem_of_singleton]%elem_of_app; [by apply Href|].
    apply get_round_Ok, find_one_Some in Hr as [Hr Hid]. by exists r.
  - destruct (reverify_entry env db rid sig) as [[e db']|] eqn:He; [|done].
    apply reverify_entry_Ok in He as (r & e0 & v & _ & _ & _ & -> & _).
    cbn [db_after lotteryround entry].
    intros e1 [He1|(e' & He' & _ & ->)]%update_one_elem; [by apply Href|].
    by apply (Href e').
  - destruct (draw_winner env db rid) as [[resp db']|] eqn:Hd; [|done].
    apply draw_winner_Ok in Hd as (r & winner & _ & _ & _ & -> & _).
    cbn [db_after lotteryround entry].
    intros e He. destruct (Href e He) as (r' & Hr' & Hid).
    destruct (elem_of_same_fmap LotteryRound.round_id (lotteryround db)
                (update_one (λ r, LotteryRound.round_id r = rid)
                   (set_drawn (Entry.wallet_address winner)
                      (now_utc env 0) (now_utc env 1)) (lotteryround db)) r')
      as (r'' & Hr'' & Hid''); [by rewrite update_one_fmap | done |].
    exists r''. split; [done | congruence].
Qed.

(** X12. From the empty store, every stored entry names a stored round. *)
Theorem entries_reference_rounds_reachable (reqs : list (Env * Request)) :
  entries_reference_rounds (serve_all empty_db reqs).
Proof.
  apply serve_all_invariant; [|apply entries_reference_rounds_serve].
  intros e He. inversion He.
Qed.

Lemma open_or_drawn_serve env db req :
  Forall open_or_drawn (lotteryround db) →
  Forall open_or_drawn (lotteryround (serve env db req)).
Proof.
  intros Hinv. destruct req as [body | rid body | rid sig | rid]; cbn [serve].
  - destruct (create_round env db body) as [[doc db']|] eqn:Hc; [|done].
    apply create_round_Ok in Hc as [-> ->]. cbn [db_after lotteryround].
    apply Forall_app. split; [done|]. by apply Forall_singleton.
  - destruct (enter_round env db rid body) as [[e db']|] eqn:He; [|done].
    by apply enter_round_Ok in He as [_ ->].
  - destruct (reverify_entry env db rid sig) as [[e db']|] eqn:He; [|done].
    by apply reverify_entry_Ok in He as (r & e0 & v & _ & _ & _ & -> & _).
  - destruct (draw_winner env db rid) as [[resp db']|] eqn:Hd; [|done].
    apply draw_winner_Ok in Hd as (r & winner & _ & _ & _ & -> & _).
    cbn [db_after lotteryround]. by apply update_one_Forall.
Qed.

(** X13. From the empty store, every stored round is in one of two states: open
    with no winner and no draw time, or closed with both. No request closes
    a round without a winner, and none reopens one. *)
Theorem open_or_drawn_reachable (reqs : list (Env * Request)) :
  Forall open_or_drawn (lotteryround (serve_all empty_db reqs)).
Proof.
  apply (serve_all_invariant (λ db, Forall open_or_drawn (lotteryround db)));
    [constructor | apply open_or_drawn_serve].
Qed.

Lemma winners_are_entrants_serve env db req :
  winners_are_entrants db → winners_are_entrants (serve env db req).
Proof.
  unfold winners_are_entrants. intros Hwin.
  destruct req as [body | rid body | rid sig | rid]; cbn [serve].
  - destruct (create_round env db body) as [[doc db']|] eqn:Hc; [|done].
    apply create_round_Ok in Hc as [-> ->]. cbn [db_after lotteryround entry].
    intros r w [Hr| ->%list_elem_of_singleton]%elem_of_app; [by apply Hwin|].
    discriminate.
  - destruct (enter_round env db rid body) as [[e db']|] eqn:He; [|done].
    apply enter_round_Ok in He as [_ ->]. cbn [db_after lotteryround entry].
    intros r w Hr Hw. destruct (Hwin r w Hr Hw) as (e' & He' & Hid & Hwallet).
    exists e'. split_and!; [|done..]. apply elem_of_app. by left.
  - destruct (reverify_entry env db rid sig) as [[e db']|] eqn:He; [|done].
    apply reverify_entry_Ok in He as (r0 & e0 & v & _ & _ & _ & -> & _).
    cbn [db_after lotteryround entry].
    intros r w Hr Hw. destruct (Hwin r w Hr Hw) as (e' & He' & Hid & Hwallet).
    destruct (elem_of_same_fmap (λ e, (Entry.round_id e, Entry.wallet_address e))
                (entry db)
                (update_one (λ e, Entry._id e = Entry._id e0)
                   (set_verified v (now_utc env 0)) (entry db)) e')
      as (e'' & He'' & [= Hid'' Hwallet'']); [by rewrite update_one_fmap | done |].
    exists e''. split_and!; [done | congruence | congruence].
  - destruct (draw_winner env db rid) as [[resp db']|] eqn:Hd; [|done].
    apply draw_winner_inv in Hd as (r0 & winner & _ & _ & Hin & Hrid & _ & _ & ->).
    cbn [db_after lotteryround entry].
    intros r w [Hr|(r' & Hr' & Hid & ->)]%update_one_elem Hw; [by apply (Hwin r)|].
    cbn in Hw. injection Hw as <-. exists winner. split_and!; [done | | done].
    cbn. congruence.
Qed.

(** X14. From the empty store, the [winner_address] of every stored round is the
    wallet of a stored entry of that round. *)
Theorem winners_are_entrants_reachable (reqs : list (Env * Request)) :
  winners_are_entrants (serve_all empty_db reqs).
Proof.
  apply serve_all_invariant; [|apply winners_are_entrants_serve].
  intros r w Hr. inversion Hr.
Qed.

(** ** What never changes *)

Lemma round_settings_serve env db req :
  round_settings <$> lotteryround db `prefix_of`
  round_settings <$> lotteryround (serve env db req).
Proof.
  destruct req as [body | rid body | rid sig | rid]; cbn [serve].
  - destruct (create_round env db body) as [[doc db']|] eqn:Hc; [|done].
    apply create_round_Ok in Hc as [_ ->]. cbn [db_after lotteryround].
    rewrite fmap_app. by eexists.
  - destruct (enter_round env db rid body) as [[e db']|] eqn:He; [|done].
    by apply enter_round_Ok in He as [_ ->].
  - destruct (reverify_entry env db rid sig) as [[e db']|] eqn:He; [|done].
    by apply reverify_entry_Ok in He as (r & e0 & v & _ & _ & _ & -> & _).
  - destruct (draw_winner env db rid) as [[resp db']|] eqn:Hd; [|done].
    apply draw_winner_Ok in Hd as (r & winner & _ & _ & _ & -> & _).
    cbn [db_after lotteryround]. by rewrite update_one_fmap.
Qed.

(** X15. Rounds are never removed or reordered, and the id, [round_id], fee,
    treasury, network and creation time of a stored round never change,
    whatever requests follow. *)
Theorem round_settings_kept (db : Db) (reqs : list (Env * Request)) :
  round_settings <$> lotteryround db `prefix_of`
  round_settings <$> lotteryround (serve_all db reqs).
Proof.
  revert db. induction reqs as [|[env req] reqs IH]; intros db; [done|].
  cbn [serve_all]. etrans; [apply (round_settings_serve env db req) | apply IH].
Qed.

Lemma entry_identity_serve env db req :
  entry_identity <$> entry db `prefix_of` entry_identity <$> entry (serve env db req).
Proof.
  destruct req as [body | rid body | rid sig | rid]; cbn [serve].
  - destruct (create_round env db body) as [[doc db']|] eqn:Hc; [|done].
    by apply create_round_Ok in Hc as [_ ->].
  - destruct (enter_round env db rid body) as [[e db']|] eqn:He; [|done].
    apply enter_round_Ok in He as [_ ->]. cbn [db_after entry].
    rewrite fmap_app. by eexists.
  - destruct (reverify_entry env db rid sig) as [[e db']|] eqn:He; [|done].
    apply reverify_entry_Ok in He as (r & e0 & v & _ & _ & _ & -> & _).
    cbn [db_after entry]. by rewrite update_one_fmap.
  - destruct (draw_winner env db rid) as [[resp db']|] eqn:Hd; [|done].
    by apply draw_winner_Ok in Hd as (r & winner & _ & _ & _ & -> & _).
Qed.

(** X16. Entries are never removed or reordered, and the id, round, wallet,
    signature and creation time of a stored entry never change, whatever
    requests follow; only [verified] and [updated_at] can. *)
Theorem entry_identity_kept (db : Db) (reqs : list (Env * Request)) :
  entry_identity <$> entry db `prefix_of`
  entry_identity <$> entry (serve_all db reqs).
Proof.
  revert db. induction reqs as [|[env req] reqs IH]; intros db; [done|].
  cbn [serve_all]. etrans; [apply (entry_identity_serve env db req) | apply IH].
Qed.

(** ** Closed rounds *)

Lemma closed_enter_round env db round_id body :
  closed db round_id → enter_round env db round_id body = Raise RoundClosed.
Proof.
  intros (r & Hr & Hc). unfold enter_round. rewrite Hr. cbn [bind]. by rewrite Hc.
Qed.

Lemma filter_update_one_fmap {A B} (P Q : A → Prop)
    `{!∀ x, Decision (P x)} `{!∀ x, Decision (Q x)} (g : A → B) set c :
  (∀ x, P (set x) ↔ P x) → (∀ x, g (set x) = g x) →
  g <$> filter P (update_one Q set c) = g <$> filter P c.
Proof.
  intros HP Hg. induction c as [|y c IH]; [reflexivity|].
  rewrite update_one_cons. case_decide as Hy.
  - rewrite !filter_cons. destruct (decide (P y)) as [Hpy|Hpy].
    + rewrite decide_True by by apply HP. cbn [fmap list_fmap]. by rewrite Hg.
    + rewrite decide_False; [done|]. by rewrite HP.
  - rewrite !filter_cons. destruct (decide (P y)); cbn [fmap list_fmap];
      by rewrite IH.
Qed.

Lemma entrants_frozen_serve env db req round_id :
  closed db round_id →
  entry_identity <$> list_entries (serve env db req) round_id =
  entry_identity <$> list_entries db round_id.
Proof.
  intros Hclosed. unfold list_entries, find.
  destruct req as [body | rid body | rid sig | rid]; cbn [serve].
  - destruct (create_round env db body) as [[doc db']|] eqn:Hc; [|done].
    by apply create_round_Ok in Hc as [_ ->].
  - destruct (enter_round env db rid body) as [[e db']|] eqn:He; [|done].
    destruct (decide (rid = round_id)) as [->|Hne].
    + by rewrite closed_enter_round in He.
    + apply enter_round_inv in He as (r & v & _ & _ & _ & _ & -> & ->).
      cbn [db_after entry].
      rewrite filter_app, filter_cons, decide_False by done.
      by rewrite filter_nil, app_nil_r.
  - destruct (reverify_entry env db rid sig) as [[e db']|] eqn:He; [|done].
    apply reverify_entry_Ok in He as (r & e0 & v & _ & _ & _ & -> & _).
    cbn [db_after entry]. by apply filter_update_one_fmap.
  - destruct (draw_winner env db rid) as [[resp db']|] eqn:Hd; [|done].
    by apply draw_winner_Ok in Hd as (r & winner & _ & _ & _ & -> & _).
Qed.

(** X17. Once a round is drawn, its pool of entrants is final: whatever requests
    follow, every submission to it fails with InvalidState, and its entries
    are the same ones, in the same order, with the same wallets and
    signatures; only their [verified] flags can still change. *)
Theorem entrants_frozen_after_draw
    (env : Env) (db : Db) (round_id : string) (resp : DrawResponse.t) (db1 : Db)
    (later : list (Env * Request)) :
  draw_winner env db round_id = Ok (resp, db1) →
  (∀ env' body,
     enter_round env' (serve_all db1 later) round_id body = Raise RoundClosed) ∧
  entry_identity <$> list_entries (serve_all db1 later) round_id =
  entry_identity <$> list_entries db round_id.
Proof.
  intros Hdraw. pose proof (closed_after_draw _ _ _ _ _ Hdraw) as Hclosed.
  split.
  - intros env' body. by apply closed_enter_round, closed_serve_all.
  - apply draw_winner_Ok in Hdraw as (r & winner & _ & _ & _ & Hdb1 & _).
    transitivity (entry_identity <$> list_entries db1 round_id);
      [|by rewrite Hdb1].
    clear Hdb1. revert db1 Hclosed.
    induction later as [|[env' req] later IH]; intros db1 Hclosed; [done|].
    cbn [serve_all]. rewrite IH by by apply closed_serve.
    by apply entrants_frozen_serve.
Qed.

Lemma entrants_frozen_after_draw_witness :
  let later :=
    [(env_confirmed, EnterRound "R-1" (EnterRequest.mk "W2" "SIG2"));
     (env_not_found, ReverifyEntry "R-1" "SIG1");
     (env_confirmed, CreateRound (CreateRoundRequest.mk "R-2" 5 "TREASURY1" "devnet"));
     (env_confirmed, EnterRound "R-2" (EnterRequest.mk "W1" "SIG3"))] in
  (∀ env' body,
     enter_round env' (serve_all db_drawn later) "R-1" body = Raise RoundClosed) ∧
  entry_identity <$> list_entries (serve_all db_drawn later) "R-1" =
  entry_identity <$> list_entries db_entered "R-1".
Proof.
  intros later.
  refine (entrants_frozen_after_draw env_confirmed db_entered "R-1" _ db_drawn later _).
  reflexivity.
Defined.

(** ** How submissions fail *)

(** X18. A submission fails in exactly three ways, tried in this order: the
    round is not stored (NotFound), the round is closed (InvalidState), an
    entry already carries the signature (Conflict). What the ledger says,
    or fails to say, never makes a submission fail. *)
Theorem enter_round_failures
    (env : Env) (db : Db) (round_id : string) (body : EnterRequest.t)
    (exc : HTTPException) :
  enter_round env db round_id body = Raise exc ↔
  get_round db round_id = Raise exc ∨
  ∃ r, get_round db round_id = Ok r ∧
       (LotteryRound.is_active r = false ∧ exc = RoundClosed ∨
        LotteryRound.is_active r = true ∧
        (∃ e, e ∈ entry db ∧
              Entry.tx_signature e = EnterRequest.tx_signature body) ∧
        exc = SignatureConflict).
Proof.
  unfold enter_round. destruct (get_round db round_id) as [r|exc'] eqn:Hr;
    cbn [bind].
  2: { split; [intros [= ->]; by left|].
       intros [[= ->]|(r & [=] & _)]. reflexivity. }
  destruct (LotteryRound.is_active r) eqn:Hactive; cbn [negb].
  2: { split.
       - intros [= <-]. right. exists r. split; [done|]. by left.
       - intros [[=]|(r' & [= <-] & [[_ ->]|[Hactive' _]])]; [done | congruence]. }
  destruct (find_one _ (entry db)) as [dup|] eqn:Hdup.
  - split.
    + intros [= <-]. right. exists r. split; [done|]. right.
      apply find_one_Some in Hdup as [Hin Hsig]. split_and!; [done | eauto | done].
    + intros [[=]|(r' & [= <-] & [[Hactive' _]|(_ & _ & ->)])]; [congruence | done].
  - destruct (verify_total (post env) (LotteryRound.network r)
                (EnterRequest.tx_signature body)
                (Some (EnterRequest.wallet_address body))
                (Some (LotteryRound.treasury_address r))) as [v ->].
    cbn [uncaught bind]. split; [discriminate|].
    intros [[=]|(r' & [= <-] & [[Hactive' _]|(_ & (e & He & Hsig) & _)])];
      [congruence|].
    destruct (proj1 (find_one_None _ _) Hdup e He Hsig).
Qed.

Lemma enter_round_failures_witness :
  enter_round env_not_found db_drawn "R-9" entry_W1 = Raise RoundNotFound ∧
  enter_round env_not_found db_drawn "R-1" entry_W1 = Raise RoundClosed.
Proof.
  split.
  - apply (proj2 (enter_round_failures env_not_found db_drawn "R-9" entry_W1
                    RoundNotFound)).
    left. reflexivity.
  - apply (proj2 (enter_round_failures env_not_found db_drawn "R-1" entry_W1
                    RoundClosed)).
    right. eexists. split; [reflexivity|]. left. split; reflexivity.
Defined.

(** ** Re-verification *)

(** X19. Re-verification fails with NotFound when the round is not stored, and
    with NotFound when the round is stored but has no entry of that
    signature, even if another round has one; otherwise it succeeds,
    whether the round is open or closed and whatever the ledger answers. *)
Theorem reverify_entry_outcomes
    (env : Env) (db : Db) (round_id tx_signature : string) :
  ((∀ r, r ∈ lotteryround db → LotteryRound.round_id r ≠ round_id) →
   reverify_entry env db round_id tx_signature = Raise RoundNotFound) ∧
  (∀ r, get_round db round_id = Ok r →
        (∀ e, e ∈ entry db → Entry.round_id e = round_id →
              Entry.tx_signature e ≠ tx_signature) →
        reverify_entry env db round_id tx_signature = Raise EntryNotFound) ∧
  (∀ r e, get_round db round_id = Ok r →
          e ∈ entry db → Entry.round_id e = round_id →
          Entry.tx_signature e = tx_signature →
          ∃ e1 db1, reverify_entry env db round_id tx_signature = Ok (e1, db1)).
Proof.
  split_and!.
  - intros Hnone. unfold reverify_entry. rewrite get_round_find_one.
    by rewrite (proj2 (find_one_None (λ r, LotteryRound.round_id r = round_id)
                         (lotteryround db)) Hnone).
  - intros r Hr Hnone. unfold reverify_entry. rewrite Hr. cbn [bind].
    rewrite (proj2 (find_one_None
               (λ e, Entry.round_id e = round_id ∧ Entry.tx_signature e = tx_signature)
               (entry db))); [done|].
    intros e He [Hrid Hsig]. by apply (Hnone e He Hrid).
  - intros r e Hr He Hrid Hsig.
    destruct (reverify_entry env db round_id tx_signature) as [[e1 db1]|exc] eqn:Hre;
      [eauto|].
    unfold reverify_entry in Hre. rewrite Hr in Hre. cbn [bind] in Hre.
    destruct (find_one_is_Some
                (λ e, Entry.round_id e = round_id ∧ Entry.tx_signature e = tx_signature)
                (entry db) e He (conj Hrid Hsig)) as [e0 He0].
    rewrite He0 in Hre.
    destruct (verify_total (post env) (LotteryRound.network r) tx_signature
                (Some (Entry.wallet_address e0))
                (Some (LotteryRound.treasury_address r))) as [v Hv].
    rewrite Hv in Hre. cbn [uncaught bind] in Hre.
    rewrite find_one_update_one_same in Hre by done.
    apply find_one_Some in He0 as [Hin _].
    destruct (find_one_is_Some (λ e, Entry._id e = Entry._id e0) (entry db) e0 Hin eq_refl)
      as [e' He'].
    rewrite He' in Hre. discriminate.
Qed.

(** The winner's entry of the closed round [R-1] can still be re-verified;
    signature [SIG1] is not found under round [R-2]. *)
Lemma reverify_entry_outcomes_witness :
  let db := serve env_confirmed db_drawn
              (CreateRound (CreateRoundRequest.mk "R-2" 5 "TREASURY1" "devnet")) in
  reverify_entry env_not_found db "R-2" "SIG1" = Raise EntryNotFound ∧
  ∃ e1 db1, reverify_entry env_not_found db "R-1" "SIG1" = Ok (e1, db1).
Proof.
  intros db. split.
  - apply (proj1 (proj2 (reverify_entry_outcomes env_not_found db "R-2" "SIG1"))
             (LotteryRound.mk 2 "R-2" true 5 "TREASURY1" "devnet" None None
                (clock 0) (clock 1)));
      [reflexivity|].
    intros e He. apply list_elem_of_In in He. destruct He as [<-|[]]. discriminate.
  - apply (proj2 (proj2 (reverify_entry_outcomes env_not_found db "R-1" "SIG1"))
             (LotteryRound.mk 0 "R-1" false 1000000 "TREASURY1" "devnet"
                (Some "W1") (Some (clock 0)) (clock 0) (clock 1))
             (Entry.mk 1 "R-1" "W1" "SIG1" true (clock 0) (clock 1)));
      [reflexivity | apply list_elem_of_In; by left | reflexivity | reflexivity].
Defined.

Lemma reverify_entry_rewrites env db round_id tx_signature e1 db1 :
  entry_ids_fresh db →
  reverify_entry env db round_id tx_signature = Ok (e1, db1) →
  ∃ r i e0 verdict,
    get_round db round_id = Ok r ∧
    entry db !! i = Some e0 ∧
    Entry.round_id e0 = round_id ∧
    Entry.tx_signature e0 = tx_signature ∧
    verify_signature_on_chain (post env) (LotteryRound.network r) tx_signature
      (Some (Entry.wallet_address e0)) (Some (LotteryRound.treasury_address r))
      = Ok verdict ∧
    e1 = set_verified verdict (now_utc env 0) e0 ∧
    db1 = mkDb (lotteryround db) (<[i := e1]> (entry db)) (next_oid db).
Proof.
  intros [Hnodup _] Hre.
  apply reverify_entry_Ok in Hre as (r & e0 & v & Hr & He0 & Hv & -> & He1).
  apply find_one_list_find in He0 as (i & Hfind).
  pose proof Hfind as (Hi & [Hrid Hsig] & _)%list_find_Some.
  pose proof (list_find_by_id _ _ _ Hnodup Hi) as Hid.
  cbn [entry] in He1. unfold update_one in He1 |- *. rewrite Hid in He1 |- *.
  apply find_one_list_find in He1 as (i' & He1).
  rewrite (list_find_insert_first _ _ _ _ (set_verified v (now_utc env 0) e0)
             Hid eq_refl) in He1.
  injection He1 as _ <-.
  exists r, i, e0, v. split_and!; done.
Qed.

(** X20. In a store whose entries have distinct ids, the entry a successful
    re-verification returns is the stored entry of that round and
    signature with [verified] set to the verdict the verifier gives now
    for the round's network and treasury and the entry's wallet, be it a
    change from [True] to [False], and [updated_at] set to the current
    time; the store holds the same entry. *)
Theorem reverify_entry_records_verdict
    (env : Env) (db : Db) (round_id tx_signature : string)
    (e1 : Entry.t) (db1 : Db) :
  entry_ids_fresh db →
  reverify_entry env db round_id tx_signature = Ok (e1, db1) →
  ∃ r e0,
    get_round db round_id = Ok r ∧
    e0 ∈ entry db ∧
    Entry.round_id e0 = round_id ∧
    Entry.tx_signature e0 = tx_signature ∧
    verify_signature_on_chain (post env) (LotteryRound.network r) tx_signature
      (Some (Entry.wallet_address e0)) (Some (LotteryRound.treasury_address r))
      = Ok (Entry.verified e1) ∧
    entry_identity e1 = entry_identity e0 ∧
    Entry.updated_at e1 = now_utc env 0 ∧
    e1 ∈ entry db1.
Proof.
  intros Hfresh Hre.
  apply reverify_entry_rewrites in Hre
    as (r & i & e0 & v & Hr & Hi & Hrid & Hsig & Hv & -> & ->); [|done].
  exists r, e0. split_and!; try done.
  - by eapply list_elem_of_lookup_2.
  - cbn [entry]. eapply list_elem_of_lookup_2.
    apply list_lookup_insert_eq. by eapply lookup_lt_Some.
Qed.

Lemma reverify_entry_records_verdict_witness :
  ∃ e1, e1 ∈ entry db_drawn_unverified ∧
        Entry.verified e1 = false ∧
        entry_identity e1 = (1, "R-1", "W1", "SIG1", clock 0).
Proof.
  destruct (reverify_entry_records_verdict env_not_found db_drawn "R-1" "SIG1"
              (Entry.mk 1 "R-1" "W1" "SIG1" false (clock 0) (clock 0))
              db_drawn_unverified)
    as (r & e0 & _ & _ & _ & _ & _ & _ & _ & Hin).
  - split; [apply NoDup_singleton | repeat constructor].
  - reflexivity.
  - eexists. split_and!; [exact Hin | reflexivity | reflexivity].
Defined.

(** ** The draw *)

Lemma random_choice_position {A} (k : nat) (x : A) (xs : list A) (y : A) :
  (x :: xs) !! k = Some y → random_choice k x xs = y.
Proof.
  intros Hk. unfold random_choice.
  assert (k < S (length xs)) by (apply lookup_lt_Some in Hk; cbn in Hk; lia).
  rewrite Nat.mod_small by done. by apply nth_lookup_Some.
Qed.

(** X21. On an open round, a random value [k] below the number of verified
    entries selects the [k]-th of them in stored order: the draw succeeds,
    answers with that entry's wallet and signature and with the round as
    stored from then on, closed and carrying that wallet, and leaves the
    entries as they were. Every verified entry of the round has such a
    position, so each can win, and a wallet wins through each of its
    entries. *)
Theorem draw_winner_by_position
    (env : Env) (db : Db) (round_id : string) (r : LotteryRound.t) :
  get_round db round_id = Ok r →
  LotteryRound.is_active r = true →
  let eligible :=
    find (λ e, Entry.round_id e = round_id ∧ Entry.verified e = true) (entry db) in
  (∀ e, eligible !! random_draw env = Some e →
        ∃ db',
          draw_winner env db round_id =
            Ok (DrawResponse.mk
                  (set_drawn (Entry.wallet_address e) (now_utc env 0) (now_utc env 1) r)
                  (Winner.mk (Entry.wallet_address e) (Entry.tx_signature e)),
                db') ∧
          get_round db' round_id =
            Ok (set_drawn (Entry.wallet_address e) (now_utc env 0) (now_utc env 1) r) ∧
          entry db' = entry db) ∧
  (∀ e, e ∈ entry db → Entry.round_id e = round_id → Entry.verified e = true →
        ∃ k, eligible !! k = Some e).
Proof.
  intros Hr Hactive eligible. split.
  - intros e Hk. unfold draw_winner. rewrite Hr. cbn [bind]. rewrite Hactive.
    cbn [negb]. fold eligible.
    destruct eligible as [|e0 es] eqn:Hel; [discriminate|].
    rewrite (random_choice_position _ _ _ _ Hk).
    assert (Hget : get_round
              (mkDb (update_one (λ r, LotteryRound.round_id r = round_id)
                       (set_drawn (Entry.wallet_address e)
                          (now_utc env 0) (now_utc env 1))
                       (lotteryround db))
                    (entry db) (next_oid db)) round_id
            = Ok (set_drawn (Entry.wallet_address e) (now_utc env 0) (now_utc env 1) r)).
    { rewrite get_round_find_one. cbn [lotteryround].
      rewrite find_one_update_one_same by done.
      by rewrite (get_round_Ok _ _ _ Hr). }
    rewrite Hget. cbn [bind]. eexists. split_and!; [reflexivity | exact Hget | done].
  - intros e He Hrid Hver. apply list_elem_of_lookup.
    unfold eligible, find. apply list_elem_of_filter. done.
Qed.

(** Two verified entries in round [R-1]: the random value 1 selects the
    second. *)
Lemma draw_winner_by_position_witness :
  let db := serve env_confirmed db_entered
              (EnterRound "R-1" (EnterRequest.mk "TREASURY1" "SIG2")) in
  let env := mkEnv (post env_confirmed) clock 1 in
  ∃ resp db',
    draw_winner env db "R-1" = Ok (resp, db') ∧
    DrawResponse.winner resp = Winner.mk "TREASURY1" "SIG2".
Proof.
  intros db env.
  destruct (proj1 (draw_winner_by_position env db "R-1"
                     (LotteryRound.mk 0 "R-1" true 1000000 "TREASURY1" "devnet"
                        None None (clock 0) (clock 1))
                     eq_refl eq_refl)
              (Entry.mk 2 "R-1" "TREASURY1" "SIG2" true (clock 0) (clock 1)) eq_refl)
    as (db' & Hdraw & _).
  eexists _, db'. split; [exact Hdraw | reflexivity].
Defined.

(** X22. A draw fails in exactly three ways, tried in this order: the round is
    not stored (NotFound), the round is closed (InvalidState), the open
    round has no verified entry (NoEligibleEntries). *)
Theorem draw_winner_failures
    (env : Env) (db : Db) (round_id : string) (exc : HTTPException) :
  draw_winner env db round_id = Raise exc ↔
  get_round db round_id = Raise exc ∨
  ∃ r, get_round db round_id = Ok r ∧
       (LotteryRound.is_active r = false ∧ exc = RoundAlreadyClosed ∨
        LotteryRound.is_active r = true ∧
        (∀ e, e ∈ entry db → Entry.round_id e = round_id →
              Entry.verified e = false) ∧
        exc = NoEligibleEntries).
Proof.
  split.
  - intros Hdraw. pose proof Hdraw as Hcases%draw_winner_Raise.
    destruct Hcases as [Hnf|(r & Hr & [[Hc ->]|[Hactive ->]])]; [by left | |].
    + right. exists r. split; [done|]. by left.
    + right. exists r. split; [done|]. right. split_and!; [done | | done].
      intros e He Hrid. destruct (Entry.verified e) eqn:Hver; [|done].
      unfold draw_winner in Hdraw. rewrite Hr in Hdraw. cbn [bind] in Hdraw.
      rewrite Hactive in Hdraw. cbn [negb] in Hdraw.
      destruct (find _ (entry db)) as [|e0 es] eqn:Hfind.
      * assert (Hin : e ∈ find (λ e, Entry.round_id e = round_id ∧
                                   Entry.verified e = true) (entry db))
          by (unfold find; by apply list_elem_of_filter).
        rewrite Hfind in Hin. inversion Hin.
      * rewrite get_round_find_one in Hdraw. cbn [lotteryround] in Hdraw.
        rewrite find_one_update_one_same, (get_round_Ok _ _ _ Hr) in Hdraw by done.
        discriminate.
  - unfold draw_winner.
    intros [Hnf|(r & Hr & [[Hc ->]|(Hactive & Hnone & ->)])].
    + by rewrite Hnf.
    + rewrite Hr. cbn [bind]. by rewrite Hc.
    + rewrite Hr. cbn [bind]. rewrite Hactive. cbn [negb].
      destruct (find _ (entry db)) as [|e0 es] eqn:Hfind; [done|].
      assert (Hin : e0 ∈ find (λ e, Entry.round_id e = round_id ∧
                                    Entry.verified e = true) (entry db))
        by (rewrite Hfind; left).
      unfold find in Hin. apply list_elem_of_filter in Hin as [[Hrid Hver] Hin].
      rewrite (Hnone e0 Hin Hrid) in Hver. discriminate.
Qed.

Lemma draw_winner_failures_witness :
  draw_winner env_confirmed db_entered "R-9" = Raise RoundNotFound ∧
  draw_winner env_confirmed db_drawn_unverified "R-1" = Raise RoundAlreadyClosed.
Proof.
  split.
  - apply (proj2 (draw_winner_failures env_confirmed db_entered "R-9" RoundNotFound)).
    left. reflexivity.
  - apply (proj2 (draw_winner_failures env_confirmed db_drawn_unverified "R-1"
                    RoundAlreadyClosed)).
    right. eexists. split; [reflexivity|]. left. split; reflexivity.
Defined.

(** ** Concurrent draws *)

(** The steps, run without interruption, are [draw_winner]. *)
Lemma draw_winner_alone_spec env round_id db :
  draw_winner_alone env round_id db =
  match draw_winner env db round_id with
  | Ok (resp, db') => (DrawResponded (Ok resp), db')
  | Raise exc => (DrawResponded (Raise exc), db)
  end.
Proof.
  unfold draw_winner_alone, draw_winner, Nat.iter.
  cbn [nat_rect draw_winner_step fst snd].
  destruct (get_round db round_id) as [r|exc] eqn:Hr; cbn [bind]; [|reflexivity].
  destruct (negb (LotteryRound.is_active r)); [reflexivity|].
  cbn [draw_winner_step fst snd].
  destruct (find _ (entry db)) as [|e0 es]; [reflexivity|].
  cbn [draw_winner_step fst snd].
  set (db' := mkDb _ (entry db) (next_oid db)).
  assert (Hupdated : ∃ updated, get_round db' round_id = Ok updated).
  { rewrite get_round_find_one. cbn [lotteryround db'].
    rewrite find_one_update_one_same, (get_round_Ok _ _ _ Hr) by done. eauto. }
  destruct Hupdated as [updated ->]. reflexivity.
Qed.

(** X23. Two draws of one open round with verified entries, interleaved so that
    both pass the open check before either writes: both succeed, each
    announces the winner it chose, and the round, in the store and in both
    answers, carries the wallet chosen by the draw that wrote last. *)
Theorem concurrent_draws_race
    (env1 env2 : Env) (db : Db) (round_id : string) (r : LotteryRound.t)
    (e0 : Entry.t) (es : list Entry.t) :
  get_round db round_id = Ok r →
  LotteryRound.is_active r = true →
  find (λ e, Entry.round_id e = round_id ∧ Entry.verified e = true) (entry db)
    = e0 :: es →
  let winner1 := random_choice (random_draw env1) e0 es in
  let winner2 := random_choice (random_draw env2) e0 es in
  let final := draw_race (env1, round_id) (env2, round_id) interleaved
                 (DrawRace.mk DrawAtGetRound DrawAtGetRound db) in
  ∃ stored,
    get_round (DrawRace.store final) round_id = Ok stored ∧
    LotteryRound.winner_address stored = Some (Entry.wallet_address winner2) ∧
    DrawRace.first final =
      DrawResponded (Ok (DrawResponse.mk stored
        (Winner.mk (Entry.wallet_address winner1) (Entry.tx_signature winner1)))) ∧
    DrawRace.second final =
      DrawResponded (Ok (DrawResponse.mk stored
        (Winner.mk (Entry.wallet_address winner2) (Entry.tx_signature winner2)))).
Proof.
  intros Hr Hactive Hfind winner1 winner2 final.
  set (set1 := set_drawn (Entry.wallet_address winner1) (now_utc env1 0) (now_utc env1 1)).
  set (set2 := set_drawn (Entry.wallet_address winner2) (now_utc env2 0) (now_utc env2 1)).
  set (P := λ r : LotteryRound.t, LotteryRound.round_id r = round_id).
  set (db2 := mkDb (update_one P set2 (update_one P set1 (lotteryround db)))
                   (entry db) (next_oid db)).
  assert (Hget : get_round db2 round_id = Ok (set2 (set1 r))).
  { rewrite get_round_find_one. cbn [lotteryround db2]. fold P.
    rewrite !find_one_update_one_same by done.
    unfold P. by rewrite (get_round_Ok _ _ _ Hr). }
  assert (Hfinal : final = DrawRace.mk
            (DrawResponded (Ok (DrawResponse.mk (set2 (set1 r))
               (Winner.mk (Entry.wallet_address winner1) (Entry.tx_signature winner1)))))
            (DrawResponded (Ok (DrawResponse.mk (set2 (set1 r))
               (Winner.mk (Entry.wallet_address winner2) (Entry.tx_signature winner2)))))
            db2).
  { subst final. unfold interleaved.
    cbn [draw_race draw_race_step draw_winner_step fst snd
         DrawRace.first DrawRace.second DrawRace.store].
    rewrite Hr, Hactive.
    cbn [negb draw_race draw_race_step draw_winner_step fst snd
         DrawRace.first DrawRace.second DrawRace.store].
    rewrite Hr, Hactive.
    cbn [negb draw_race draw_race_step draw_winner_step fst snd
         DrawRace.first DrawRace.second DrawRace.store].
    rewrite Hfind.
    cbn [draw_race draw_race_step draw_winner_step fst snd
         DrawRace.first DrawRace.second DrawRace.store].
    rewrite Hfind.
    cbn [draw_race draw_race_step draw_winner_step fst snd
         DrawRace.first DrawRace.second DrawRace.store entry lotteryround next_oid].
    fold winner1 winner2 set1 set2 P. fold db2. rewrite Hget.
    cbn [draw_race draw_race_step draw_winner_step fst snd
         DrawRace.first DrawRace.second DrawRace.store].
    rewrite Hget. reflexivity. }
  exists (set2 (set1 r)). rewrite Hfinal. split_and!; done.
Qed.

(** Round [R-1] holds two verified entries; two draws at once announce
    wallets [W1] and [TREASURY1], and the round keeps [TREASURY1]. *)
Lemma concurrent_draws_race_witness :
  let db := serve env_confirmed db_entered
              (EnterRound "R-1" (EnterRequest.mk "TREASURY1" "SIG2")) in
  let final := draw_race (mkEnv (post env_confirmed) clock 0, "R-1")
                 (mkEnv (post env_confirmed) clock 1, "R-1") interleaved
                 (DrawRace.mk DrawAtGetRound DrawAtGetRound db) in
  ∃ stored,
    get_round (DrawRace.store final) "R-1" = Ok stored ∧
    LotteryRound.winner_address stored = Some "TREASURY1" ∧
    DrawRace.first final =
      DrawResponded (Ok (DrawResponse.mk stored (Winner.mk "W1" "SIG1"))) ∧
    DrawRace.second final =
      DrawResponded (Ok (DrawResponse.mk stored (Winner.mk "TREASURY1" "SIG2"))).
Proof.
  intros db final.
  refine (concurrent_draws_race (mkEnv (post env_confirmed) clock 0)
            (mkEnv (post env_confirmed) clock 1) db "R-1"
            (LotteryRound.mk 0 "R-1" true 1000000 "TREASURY1" "devnet" None None
               (clock 0) (clock 1))
            (Entry.mk 1 "R-1" "W1" "SIG1" true (clock 0) (clock 1))
            [Entry.mk 2 "R-1" "TREASURY1" "SIG2" true (clock 0) (clock 1)]
            _ _ _); reflexivity.
Defined.

(** ** Lookups in a store with unique round ids *)

Lemma unique_key_elem {A B} (f : A → B) (c : list A) x y :
  NoDup (f <$> c) → x ∈ c → y ∈ c → f x = f y → x = y.
Proof.
  intros Hnodup [i Hi]%list_elem_of_lookup [j Hj]%list_elem_of_lookup Heq.
  assert (i = j).
  { apply (NoDup_lookup _ i j (f x) Hnodup).
    - by rewrite list_lookup_fmap, Hi.
    - by rewrite list_lookup_fmap, Hj, Heq. }
  subst j. congruence.
Qed.

(** X24. When no two stored rounds share a [round_id], as in every store
    reached from the empty one, looking a stored round up by its id
    returns that very round. *)
Theorem get_round_unique (db : Db) (r : LotteryRound.t) :
  round_ids_unique db →
  r ∈ lotteryround db →
  get_round db (LotteryRound.round_id r) = Ok r.
Proof.
  intros Hunique Hr. rewrite get_round_find_one.
  destruct (find_one_is_Some (λ r', LotteryRound.round_id r' = LotteryRound.round_id r)
              (lotteryround db) r Hr eq_refl) as [r' Hf].
  rewrite Hf. f_equal. apply find_one_Some in Hf as [Hr' Hid].
  by apply (unique_key_elem LotteryRound.round_id (lotteryround db)).
Qed.

Lemma get_round_unique_witness :
  let db := serve env_confirmed db_drawn
              (CreateRound (CreateRoundRequest.mk "R-2" 5 "TREASURY1" "devnet")) in
  get_round db "R-2" =
    Ok (LotteryRound.mk 2 "R-2" true 5 "TREASURY1" "devnet" None None
          (clock 0) (clock 1)).
Proof.
  intros db.
  apply (get_round_unique db
           (LotteryRound.mk 2 "R-2" true 5 "TREASURY1" "devnet" None None
              (clock 0) (clock 1))).
  - unfold round_ids_unique. cbn. apply NoDup_cons. split.
    + intros Hin. apply list_elem_of_singleton in Hin. discriminate Hin.
    + apply NoDup_singleton.
  - apply list_elem_of_In. right. left. reflexivity.
Defined.

(** ** Who changes entries *)


